(** * cr14 example clients: a shallow embedding and its properties

    The repository's Python sources are seven scripts that talk to the
    cr14 RFID reader through the character device [/dev/rfid0]:
    [dump_512_bytes.py], [dump_counter.py], [erase_blocks.py],
    [read_system_block.py], [simple_uid_reader.py], [write_block.py] and
    [write_blocks.py].  Each script is embedded below as a computation in a
    small state-and-exception monad over the device's byte stream.  The
    [os.open] and [os.close] of the device and the handler of
    [KeyboardInterrupt], a signal from outside the program, are not part of
    the model. *)

From Stdlib Require Import ZArith List Lia Bool Permutation String.
From Stdlib Require Import Strings.Byte.
Import ListNotations.
Local Open Scope Z_scope.

(** ** Python values *)

(** A Python [bytes] or [bytearray] object is a list of bytes; indexing one
    yields an [int], here a [Z]. *)
Definition bytes := list byte.

Definition ord (c : byte) : Z := Z.of_N (Byte.to_N c).

(** The value stored by [bytearray.__setitem__]: an [int] in [range(256)],
    anything else is a [ValueError]. *)
Definition byte_of_int (v : Z) : option byte :=
  if (0 <=? v) && (v <? 256) then Byte.of_N (Z.to_N v) else None.

Fixpoint bytes_eqb (a b : bytes) : bool :=
  match a, b with
  | [], [] => true
  | x :: a', y :: b' => Byte.eqb x y && bytes_eqb a' b'
  | _, _ => false
  end.

(** [int.from_bytes(data, byteorder="little")]. *)
Fixpoint from_bytes_little (data : bytes) : Z :=
  match data with
  | [] => 0
  | c :: data' => ord c + 256 * from_bytes_little data'
  end.

(** The [length] low bytes of [n], least significant first (two's complement
    for a negative [n]). *)
Fixpoint little_digits (length : nat) (n : Z) : list Z :=
  match length with
  | O => []
  | S length' => n mod 256 :: little_digits length' (n / 256)
  end.

Fixpoint bytes_of_ints (l : list Z) : option bytes :=
  match l with
  | [] => Some []
  | v :: l' =>
      match byte_of_int v, bytes_of_ints l' with
      | Some c, Some cs => Some (c :: cs)
      | _, _ => None
      end
  end.

(** [n.to_bytes(length, byteorder="little", signed=signed)]: [None] stands
    for the [OverflowError] Python raises when [n] is negative and [signed]
    is false, or when [n] does not fit in [length] bytes. *)
Definition to_bytes_little (n : Z) (length : nat) (signed : bool) : option bytes :=
  let bits := 8 * Z.of_nat length in
  let fits :=
    if signed
    then (- 2 ^ (bits - 1) <=? n) && (n <? 2 ^ (bits - 1)) || (n =? 0)
    else (0 <=? n) && (n <? 2 ^ bits) in
  if fits then bytes_of_ints (little_digits length n) else None.

(** [range(a, b)]. *)
Definition range (a b : Z) : list Z :=
  map (fun i => a + Z.of_nat i) (seq 0 (Z.to_nat (b - a))).

(** ** What a script prints

    One constructor per [print] statement of the sources; the arguments are
    the values interpolated in the f-string.  A UID or block printed through
    [":".join("{:02x}".format(c) for c in ...)] or [.hex()] is carried as the
    byte sequence that is formatted. *)
Inductive line : Type :=
| Waiting_for_a_chip
| Exit_with_control_C
| Unexpected_packet_header (h : Z)
| UID (uid : bytes)
| Unexpected_MSB (got : Z)
| Unexpected_count (got expected : Z)
| Unexpected_count_repr (got : bytes) (expected : Z)
| Block_dump (x : Z) (data : bytes)
| Block_counter (x counter_value : Z) (data : bytes)
| Data_mismatch (got wrote : bytes)
| Erased_blocks
| Not_STMicroelectronics
| Data_read_single (data : bytes)
| Data_read_block (data : bytes)
| Counter_decrementing (counter : Z)
| Unexpected_packet (got : bytes)
| New_block (n : Z) (data : bytes)
| Manufacturer (name : string)
| Manufacturer_unknown (id : Z)
| Model (model_str : string)
| Model_unknown (id : Z)
| Serial_number (serial : bytes).

(** ** The device and the monad

    [/dev/rfid0] is a byte stream.  [rfid] holds the bytes the driver will
    still deliver; [os.read(rfid, n)] takes the next [n] of them, or all that
    is left when fewer remain (the short read of a closed device).  The
    [trace] records, in order, every [os.write], [os.read] and [print]. *)
Inductive event : Type :=
| Write (frame : bytes)
| Read (n : nat) (got : bytes)
| Print (l : line).

Record world : Type := World { rfid : bytes; trace : list event }.

Inductive exn : Type := IndexError | ValueError | OverflowError.

(** [Spin] is a loop that used up its fuel; see [while_u_total] and
    [reader_loop_total]: with the fuel the scripts pass it never happens. *)
Inductive outcome (A : Type) : Type :=
| Done (a : A) (w : world)
| Raised (e : exn) (w : world)
| Spin (w : world).
Arguments Done {A} a w.
Arguments Raised {A} e w.
Arguments Spin {A} w.

Definition io (A : Type) : Type := world -> outcome A.

Definition ret {A} (a : A) : io A := fun w => Done a w.

Definition bind {A B} (m : io A) (k : A -> io B) : io B :=
  fun w =>
    match m w with
    | Done a w' => k a w'
    | Raised e w' => Raised e w'
    | Spin w' => Spin w'
    end.

Notation "x <- m ;; k" := (bind m (fun x => k))
  (at level 61, m at next level, right associativity).
Notation "m ;;; k" := (bind m (fun _ => k))
  (at level 61, right associativity).

Definition raise {A} (e : exn) : io A := fun w => Raised e w.

Definition emit (e : event) : io unit :=
  fun w => Done tt (World (rfid w) (trace w ++ [e])).

Definition os_write (frame : bytes) : io unit := emit (Write frame).

Definition os_read (n : nat) : io bytes :=
  fun w =>
    let got := firstn n (rfid w) in
    Done got (World (skipn n (rfid w)) (trace w ++ [Read n got])).

Definition print (l : line) : io unit := emit (Print l).

(** [b[i]] for a non-negative literal [i]. *)
Definition item (b : bytes) (i : nat) : io Z :=
  match nth_error b i with
  | Some c => ret (ord c)
  | None => raise IndexError
  end.

Definition when (c : bool) (m : io unit) : io unit := if c then m else ret tt.

(** [for x in xs: body]. *)
Fixpoint for_each {A} (xs : list A) (body : A -> io unit) : io unit :=
  match xs with
  | [] => ret tt
  | x :: xs' => body x ;;; for_each xs' body
  end.

Definition run {A} (m : io A) (stream : bytes) : outcome A := m (World stream []).

Definition writes (t : list event) : list bytes :=
  flat_map (fun e => match e with Write f => [f] | _ => [] end) t.

(** ** Idioms shared by the scripts *)

Local Open Scope byte_scope.
Local Open Scope Z_scope.

(** The announcement loop, with [packet] already read:
<<
    while packet == b"u":
        os.read(rfid, 8)
        packet = os.read(rfid, 1)
>>
    ([dump_512_bytes.py] 30-32, [dump_counter.py] 25-27, [erase_blocks.py]
    27-29, [read_system_block.py] 25-27 and 38-40, [write_block.py] 26-28,
    [write_blocks.py] 26-28). *)
Fixpoint while_u (fuel : nat) (packet : bytes) : io bytes :=
  if bytes_eqb packet ["u"]
  then match fuel with
       | O => fun w => Spin w
       | S fuel' =>
           os_read 8 ;;;
           packet' <- os_read 1 ;;
           while_u fuel' packet'
       end
  else ret packet.

(** The loop run with as much fuel as there are bytes left on the device:
    every iteration but the last consumes nine of them. *)
Definition while_packet_is_u (packet : bytes) : io bytes :=
  fun w => while_u (S (List.length (rfid w))) packet w.

(** The opening of the six request scripts ([dump_512_bytes.py] 9-22,
    [dump_counter.py] 9-22, [erase_blocks.py] 9-23, [read_system_block.py]
    6-20, [write_block.py] 9-23, [write_blocks.py] 9-23): poll, read nine
    bytes, check the header, reverse and print the UID, check its first
    byte.  [body] is the rest of the [else] branch; it receives [packet[1:]]
    (the UID as on the wire) and the reversed [bytearray]. *)
Definition poll_uid (body : bytes -> bytes -> io unit) : io unit :=
  print Waiting_for_a_chip ;;;
  os_write ["p"] ;;;
  packet <- os_read 9 ;;
  h <- item packet 0 ;;
  if negb (h =? ord "u")
  then print (Unexpected_packet_header h)
  else
    let uid_le := tl packet in
    let uid := rev uid_le in
    print (UID uid) ;;;
    msb <- item uid 0 ;;
    when (negb (msb =? 208)) (print (Unexpected_MSB msb)) ;;;
    body uid_le uid.

(** ** dump_counter.py *)

(** Lines 23-37: the read of blocks 5 and 6. *)
Definition dump_counter_read (uid_le : bytes) : io unit :=
  os_write (["R"] ++ uid_le ++ [x02; x05; x06]) ;;;
  packet <- os_read 1 ;;
  packet <- while_packet_is_u packet ;;
  if bytes_eqb packet ["R"]
  then
    count <- os_read 1 ;;
    c <- item count 0 ;;
    when (negb (c =? 2)) (print (Unexpected_count c 2)) ;;;
    for_each (range 5 7) (fun x =>
      data <- os_read 4 ;;
      print (Block_counter x (from_bytes_little data) data))
  else
    h <- item packet 0 ;;
    print (Unexpected_packet_header h).

Definition dump_counter : io unit :=
  poll_uid (fun uid_le _ => dump_counter_read uid_le).

(** ** dump_512_bytes.py *)

(** Lines 23-44: the read of blocks 0 to 15. *)
Definition dump_512_bytes_read (uid_le : bytes) : io unit :=
  os_write (["R"] ++ uid_le
            ++ [x10; x00; x01; x02; x03; x04; x05; x06; x07; x08; x09;
                x0a; x0b; x0c; x0d; x0e; x0f]) ;;;
  packet <- os_read 1 ;;
  packet <- while_packet_is_u packet ;;
  if bytes_eqb packet ["R"]
  then
    count <- os_read 1 ;;
    c <- item count 0 ;;
    when (negb (c =? 16)) (print (Unexpected_count c 16)) ;;;
    for_each (range 0 c) (fun x =>
      data <- os_read 4 ;;
      print (Block_dump x (rev data)))
  else
    h <- item packet 0 ;;
    print (Unexpected_packet_header h).

Definition dump_512_bytes : io unit :=
  poll_uid (fun uid_le _ => dump_512_bytes_read uid_le).

(** ** erase_blocks.py *)

Definition erased_data : bytes :=
  [xff; xff; xff; xff; xff; xff; xff; xff; xff; xff; xff; xff].

(** Lines 24-43: the write of blocks 7 to 9. *)
Definition erase_blocks_write (uid_le : bytes) : io unit :=
  os_write (["W"] ++ uid_le ++ [x03; x07; x08; x09] ++ erased_data) ;;;
  packet <- os_read 1 ;;
  packet <- while_packet_is_u packet ;;
  if bytes_eqb packet ["W"]
  then
    count <- os_read 1 ;;
    c <- item count 0 ;;
    if negb (c =? 3)
    then print (Unexpected_count c 3)
    else
      data <- os_read 12 ;;
      if negb (bytes_eqb data erased_data)
      then print (Data_mismatch data erased_data)
      else print Erased_blocks
  else
    h <- item packet 0 ;;
    print (Unexpected_packet_header h).

Definition erase_blocks : io unit :=
  poll_uid (fun uid_le _ => erase_blocks_write uid_le).

(** ** read_system_block.py *)

(** Lines 23-35: the single read of block 255. *)
Definition read_system_block_single (uid_le : bytes) : io unit :=
  os_write (["r"] ++ uid_le ++ [xff]) ;;;
  packet <- os_read 1 ;;
  packet <- while_packet_is_u packet ;;
  if bytes_eqb packet ["r"]
  then
    data <- os_read 4 ;;
    print (Data_read_single (rev data))
  else
    h <- item packet 0 ;;
    print (Unexpected_packet_header h).

(** Lines 36-51: the same block through a multiple read. *)
Definition read_system_block_multiple (uid_le : bytes) : io unit :=
  os_write (["R"] ++ uid_le ++ [x01; xff]) ;;;
  packet <- os_read 1 ;;
  packet <- while_packet_is_u packet ;;
  if bytes_eqb packet ["R"]
  then
    count <- os_read 1 ;;
    c <- item count 0 ;;
    when (negb (c =? 1)) (print (Unexpected_count_repr count 1)) ;;;
    data <- os_read 4 ;;
    print (Data_read_block (rev data))
  else
    h <- item packet 0 ;;
    print (Unexpected_packet_header h).

Definition read_system_block : io unit :=
  poll_uid (fun uid_le uid_be =>
    m <- item uid_be 1 ;;
    when (negb (m =? 2)) (print Not_STMicroelectronics) ;;;
    read_system_block_single uid_le ;;;
    read_system_block_multiple uid_le).

(** ** write_block.py *)

(** Lines 35-44: the write of block 7 and the check of its echo. *)
Definition write_block_write (uid_le data : bytes) : io unit :=
  os_write (["w"] ++ uid_le ++ [x07] ++ data) ;;;
  packet <- os_read 1 ;;
  if bytes_eqb packet ["w"]
  then
    written_data <- os_read 4 ;;
    when (negb (bytes_eqb written_data data))
         (print (Data_mismatch written_data data))
  else print (Unexpected_packet packet).

(** Lines 33-34: [counter = counter - 1] and its encoding. *)
Definition decrement (counter : Z) : option bytes :=
  let counter := counter - 1 in
  to_bytes_little counter 4 (counter <? 0).

(** Lines 24-46: read block 7, decrement it, write it back. *)
Definition write_block_cycle (uid_le : bytes) : io unit :=
  os_write (["r"] ++ uid_le ++ [x07]) ;;;
  packet <- os_read 1 ;;
  packet <- while_packet_is_u packet ;;
  if bytes_eqb packet ["r"]
  then
    data <- os_read 4 ;;
    let counter := from_bytes_little data in
    print (Counter_decrementing counter) ;;;
    match decrement counter with
    | None => raise OverflowError
    | Some data => write_block_write uid_le data
    end
  else
    h <- item packet 0 ;;
    print (Unexpected_packet_header h).

Definition write_block : io unit :=
  poll_uid (fun uid_le _ => write_block_cycle uid_le).

(** ** write_blocks.py *)

(** Lines 37-74: the rotated write of blocks 7 to 9 and the check of its
    echo.  The three mismatch messages all interpolate [written7] and
    [block8], as the source has them. *)
Definition write_blocks_write (uid_le block7 block8 block9 : bytes) : io unit :=
  os_write (["W"] ++ uid_le ++ [x03; x07; x08; x09]
            ++ block8 ++ block9 ++ block7) ;;;
  packet <- os_read 1 ;;
  if bytes_eqb packet ["W"]
  then
    count <- os_read 1 ;;
    c <- item count 0 ;;
    if negb (c =? 3)
    then print (Unexpected_count c 3)
    else
      written7 <- os_read 4 ;;
      written8 <- os_read 4 ;;
      written9 <- os_read 4 ;;
      when (negb (bytes_eqb written7 block8))
           (print (Data_mismatch written7 block8)) ;;;
      when (negb (bytes_eqb written8 block9))
           (print (Data_mismatch written7 block8)) ;;;
      when (negb (bytes_eqb written9 block7))
           (print (Data_mismatch written7 block8)) ;;;
      print (New_block 7 written7) ;;;
      print (New_block 8 written8) ;;;
      print (New_block 9 written9)
  else print (Unexpected_packet packet).

(** Lines 24-76: read blocks 7 to 9, write them back rotated. *)
Definition write_blocks_cycle (uid_le : bytes) : io unit :=
  os_write (["R"] ++ uid_le ++ [x03; x07; x08; x09]) ;;;
  packet <- os_read 1 ;;
  packet <- while_packet_is_u packet ;;
  if bytes_eqb packet ["R"]
  then
    count <- os_read 1 ;;
    c <- item count 0 ;;
    if negb (c =? 3)
    then print (Unexpected_count c 3)
    else
      block7 <- os_read 4 ;;
      block8 <- os_read 4 ;;
      block9 <- os_read 4 ;;
      write_blocks_write uid_le block7 block8 block9
  else
    h <- item packet 0 ;;
    print (Unexpected_packet_header h).

Definition write_blocks : io unit :=
  poll_uid (fun uid_le _ => write_blocks_cycle uid_le).

(** ** simple_uid_reader.py *)

(** An element of a [MODELS] set: [(bits, model_id, model_str)]. *)
Definition model_entry : Type := Z * Z * string.

(** [MODELS], lines 5-53.  The value under [0x02] is a Python [set]; its
    elements are listed in the order of the source text, and the order in
    which a [for] loop visits them is the argument [iteration] of the
    script below. *)
Definition MODELS : list (Z * list model_entry) :=
  [ (2, [ (6, 3, "SRIX4K"%string);
          (6, 6, "SRI512"%string);
          (6, 12, "SRT512"%string);
          (6, 7, "SRI4K"%string);
          (6, 15, "SRI2K"%string);
          (8, 27, "ST25TB512-AC"%string);
          (8, 31, "ST25TB04K"%string);
          (8, 51, "ST25TB512-AT"%string);
          (8, 63, "ST25TB02K"%string) ]) ].

(** [MANUFACTURERS], lines 54-77. *)
Definition MANUFACTURERS : list (Z * string) :=
  [ (1, "Motorola"); (2, "ST Microelectronics"); (3, "Hitachi");
    (4, "NXP Semiconductors"); (5, "Infineon Technologies"); (6, "Cylinc");
    (7, "Texas Instruments Tag-it"); (8, "Fujitsu Limited");
    (9, "Matsushita Electric Industrial"); (10, "NEC"); (11, "Oki Electric");
    (12, "Toshiba"); (13, "Mitsubishi Electric"); (14, "Samsung Electronics");
    (15, "Hyundai Electronics"); (16, "LG Semiconductors");
    (22, "EM Microelectronic-Marin"); (31, "Melexis"); (43, "Maxim");
    (51, "AMIC"); (68, "GenTag, Inc (USA)");
    (69, "Invengo Information Technology Co.Ltd") ]%string.

(** [d[k]] guarded by [k in d]. *)
Fixpoint lookup {V} (d : list (Z * V)) (k : Z) : option V :=
  match d with
  | [] => None
  | (k', v) :: d' => if k =? k' then Some v else lookup d' k
  end.

(** [b[i] = v] on a [bytearray]. *)
Fixpoint store (b : bytes) (i : nat) (c : byte) : option bytes :=
  match b, i with
  | [], _ => None
  | _ :: b', O => Some (c :: b')
  | x :: b', S i' => option_map (cons x) (store b' i' c)
  end.

Definition setitem (b : bytes) (i : nat) (v : Z) : io bytes :=
  match byte_of_int v with
  | None => raise ValueError
  | Some c =>
      match store b i c with
      | Some b' => ret b'
      | None => raise IndexError
      end
  end.

(** What the model loop leaves behind: the [bytearray], [serial_start] and
    [model_unknown]. *)
Definition model_state : Type := bytes * nat * bool.

(** Lines 102-113, the [for] loop with its [break], over the elements still
    to visit. *)
Fixpoint model_loop (entries : list model_entry) (uid : bytes) : io model_state :=
  match entries with
  | [] => ret (uid, 2%nat, true)
  | (bits, model_id, model_str) :: entries' =>
      model <- item uid 2 ;;
      let model := if bits <? 8 then Z.shiftr model (8 - bits) else model in
      if model =? model_id
      then
        print (Model model_str) ;;;
        if bits <? 8
        then
          u2 <- item uid 2 ;;
          uid' <- setitem uid 2 (Z.land u2 (Z.lnot (Z.shiftl model (8 - bits)))) ;;
          ret (uid', 2%nat, false)
        else ret (uid, 3%nat, false)
      else model_loop entries' uid
  end.

Section Reader.

(** The order in which Python visits the elements of a set. *)
Variable iteration : list model_entry -> list model_entry.

(** Lines 99-117: model and serial number of a reversed UID. *)
Definition print_model_and_serial (uid : bytes) : io unit :=
  m <- item uid 1 ;;
  st <- match lookup MODELS m with
        | Some entries =>
            st <- model_loop (iteration entries) uid ;;
            let '(uid', serial_start, model_unknown) := st in
            (if model_unknown
             then u2 <- item uid' 2 ;; print (Model_unknown u2)
             else ret tt) ;;;
            ret (uid', serial_start)
        | None => ret (uid, 2%nat)
        end ;;
  let '(uid', serial_start) := st in
  print (Serial_number (skipn serial_start uid')).

(** Lines 83-117, one turn of [while True]; the result is [false] on
    [break]. *)
Definition reader_turn : io bool :=
  packet <- os_read 9 ;;
  h <- item packet 0 ;;
  if negb (h =? ord "u")
  then print (Unexpected_packet_header h) ;;; ret false
  else
    let uid := rev (tl packet) in
    print (UID uid) ;;;
    msb <- item uid 0 ;;
    when (negb (msb =? 208)) (print (Unexpected_MSB msb)) ;;;
    m <- item uid 1 ;;
    match lookup MANUFACTURERS m with
    | Some manufacturer => print (Manufacturer manufacturer)
    | None => print (Manufacturer_unknown m)
    end ;;;
    print_model_and_serial uid ;;;
    ret true.

Fixpoint reader_loop (fuel : nat) : io unit :=
  match fuel with
  | O => fun w => Spin w
  | S fuel' =>
      continue <- reader_turn ;;
      if continue then reader_loop fuel' else ret tt
  end.

(** The script: every turn that does not end the loop consumes at least one
    byte of the device, so this fuel is enough. *)
Definition simple_uid_reader : io unit :=
  print Exit_with_control_C ;;;
  fun w => reader_loop (S (List.length (rfid w))) w.

End Reader.

(** * The vocabulary of the properties *)

(** The test of lines 103-106 on one element of the set: the top [bits] bits
    of the model byte (the whole byte for an 8-bit entry) against
    [model_id]. *)
Definition entry_matches (model_byte : Z) (e : model_entry) : bool :=
  let '(bits, model_id, _) := e in
  (if bits <? 8 then Z.shiftr model_byte (8 - bits) else model_byte) =? model_id.

(** The model bytes that two elements of [MODELS[0x02]] claim. *)
Definition overlap : bytes := [x1b; x1f; x33; x3f].

Definition unique_match (model_byte : Z) (entries : list model_entry) : Prop :=
  forall e1 e2,
    In e1 entries -> In e2 entries ->
    entry_matches model_byte e1 = true ->
    entry_matches model_byte e2 = true -> e1 = e2.

(** [extend t o] is [o] with [t] put in front of its trace. *)
Definition extend {A} (t : list event) (o : outcome A) : outcome A :=
  match o with
  | Done a w => Done a (World (rfid w) (t ++ trace w))
  | Raised e w => Raised e (World (rfid w) (t ++ trace w))
  | Spin w => Spin (World (rfid w) (t ++ trace w))
  end.

(** A computation is [uniform] when it never looks at the trace: run after
    [t], it does what it does after nothing, [t] in front. *)
Definition uniform {A} (m : io A) : Prop :=
  forall r t, m (World r t) = extend t (m (World r [])).

(** The frames [u uid] of the UIDs in [uids], as they come on the device. *)
Definition announcements (uids : list bytes) : bytes :=
  flat_map (fun uid => "u" :: uid) uids.

(** The reads that the loop spends on them. *)
Definition skipped (uids : list bytes) : list event :=
  flat_map (fun uid => [Read 1 ["u"]; Read 8 uid]) uids.

Definition eight (uid : bytes) : Prop := List.length uid = 8%nat.

(** The shape of every transaction that has the loop: write the request,
    read one byte, loop, go on with the packet that ended the loop. *)
Definition exchange {A} (frame : bytes) (K : bytes -> io A) : io A :=
  os_write frame ;;;
  packet <- os_read 1 ;;
  packet <- while_packet_is_u packet ;;
  K packet.

(** [absorbs tx]: announcements in front of the reply cost [tx] their own
    reads and change nothing else: the outcome [o] that follows the request
    is the same with and without them. *)
Definition absorbs (tx : io unit) : Prop :=
  forall (uids : list bytes) (rest : bytes) (t : list event),
    Forall eight uids ->
    firstn 1 rest <> ["u"] ->
    exists frame o,
      tx (World rest t) = extend (t ++ [Write frame]) o
      /\ tx (World (announcements uids ++ rest) t)
         = extend (t ++ [Write frame] ++ skipped uids) o.

(** The world a run ends in. *)
Definition final {A} (o : outcome A) : world :=
  match o with Done _ w | Raised _ w | Spin w => w end.

(** How a transaction ends on the unexpected header [c]: after the request
    and the announcements it read that one byte, printed it, and did nothing
    more; [tail] is still on the device. *)
Definition ends_unexpected (c : byte) (uids : list bytes) (tail : bytes)
           (t : list event) (frame : bytes) : outcome unit :=
  Done tt (World tail
                 (t ++ [Write frame] ++ skipped uids
                    ++ [Read 1 [c]; Print (Unexpected_packet_header (ord c))])).

(** What the [for] loop of dump_512_bytes.py does for the block numbers
    [xs] on the stream [s]. *)
Fixpoint dumped (xs : list Z) (s : bytes) : list event :=
  match xs with
  | [] => []
  | x :: xs' =>
      Read 4 (firstn 4 s) :: Print (Block_dump x (rev (firstn 4 s)))
           :: dumped xs' (skipn 4 s)
  end.

(** The report of one compared block, as write_blocks.py prints it. *)
Definition mismatch (got wrote : bytes) (l : line) : list event :=
  if bytes_eqb got wrote then [] else [Print l].

(** The warning of the chip-family check, from the UID as on the wire. *)
Definition chip_family_warning (uid_le : bytes) : list event :=
  match nth_error uid_le 7 with
  | Some c => if ord c =? 208 then [] else [Print (Unexpected_MSB (ord c))]
  | None => []
  end.

(** What a script has done when it is through with the poll of a chip. *)
Definition polled (uid_le : bytes) : list event :=
  [Print Waiting_for_a_chip; Write ["p"]; Read 9 ("u" :: uid_le);
   Print (UID (rev uid_le))] ++ chip_family_warning uid_le.

(** The manufacturer check of read_system_block.py (lines 21-22), from the
    UID as on the wire. *)
Definition st_warning (uid_le : bytes) : list event :=
  match nth_error uid_le 6 with
  | Some m => if ord m =? 2 then [] else [Print Not_STMicroelectronics]
  | None => []
  end.

(** The manufacturer line of simple_uid_reader.py (lines 94-98), from the
    UID as on the wire. *)
Definition manufacturer_line (uid_le : bytes) : list event :=
  match nth_error uid_le 6 with
  | Some m =>
      match lookup MANUFACTURERS (ord m) with
      | Some manufacturer => [Print (Manufacturer manufacturer)]
      | None => [Print (Manufacturer_unknown (ord m))]
      end
  | None => []
  end.

(** [script], run on [stream] after [t], gets as far as [before] and then
    goes on with [next] on [rest], which starts by writing [frame]. *)
Definition goes_on (script next : io unit) (stream rest : bytes)
           (t before : list event) (frame : bytes) : Prop :=
  script (World stream t) = extend (t ++ before) (next (World rest []))
  /\ exists o, next (World rest []) = extend [Write frame] o.

(** The requests of the protocol, as the specification lists them. *)
Inductive request : Type :=
| Poll
| Read_single (uid : bytes) (address : byte)
| Read_multiple (uid : bytes) (addresses : bytes)
| Write_single (uid : bytes) (address : byte) (data : bytes)
| Write_multiple (uid : bytes) (addresses : bytes) (data : list bytes).

Definition block (data : bytes) : Prop := List.length data = 4%nat.

(** An 8-byte UID; for the multiple requests a list of addresses that is
    not empty and has no duplicates; four bytes of data for every block
    written. *)
Definition valid (r : request) : Prop :=
  match r with
  | Poll => True
  | Read_single uid _ => eight uid
  | Read_multiple uid addresses =>
      eight uid /\ addresses <> [] /\ NoDup addresses
  | Write_single uid _ data => eight uid /\ block data
  | Write_multiple uid addresses data =>
      eight uid /\ addresses <> [] /\ NoDup addresses
      /\ List.length data = List.length addresses /\ Forall block data
  end.

(** Tag, UID, then the address, or the count and that many addresses, then
    the data.  A count has to fit its byte. *)
Definition encode (r : request) : option bytes :=
  match r with
  | Poll => Some ["p"]
  | Read_single uid address => Some ("r" :: uid ++ [address])
  | Read_multiple uid addresses =>
      option_map (fun count => "R" :: uid ++ count :: addresses)
                 (Byte.of_nat (List.length addresses))
  | Write_single uid address data => Some ("w" :: uid ++ address :: data)
  | Write_multiple uid addresses data =>
      option_map
        (fun count => "W" :: uid ++ count :: addresses ++ List.concat data)
        (Byte.of_nat (List.length addresses))
  end.

Definition well_formed (frame : bytes) : Prop :=
  exists r, valid r /\ encode r = Some frame.

(** The device keeps its contract: no [os.read] came back short. *)
Definition no_short_read (t : list event) : Prop :=
  Forall (fun e => match e with
                   | Read n got => List.length got = n
                   | _ => True
                   end) t.

(** [carries uid r]: the request [r] is addressed to [uid]; a poll is
    addressed to no chip. *)
Definition carries (uid : bytes) (r : request) : Prop :=
  match r with
  | Poll => True
  | Read_single u _ | Read_multiple u _
  | Write_single u _ _ | Write_multiple u _ _ => u = uid
  end.

(** [frame] is the encoding of a valid request addressed to [uid]. *)
Definition request_frame (uid frame : bytes) : Prop :=
  exists r, valid r /\ carries uid r /\ encode r = Some frame.

(** Every frame written in [t] before the first short read, if there is
    one, is a request addressed to [uid]. *)
Fixpoint frames_until_short_read (uid : bytes) (t : list event) : Prop :=
  match t with
  | [] => True
  | Write frame :: t' =>
      request_frame uid frame /\ frames_until_short_read uid t'
  | Read n got :: t' =>
      List.length got = n -> frames_until_short_read uid t'
  | Print _ :: t' => frames_until_short_read uid t'
  end.

(** [tidy uid m Q]: the frames [m] writes before it sees a short read are
    requests addressed to [uid], and its result, when it has one and saw no
    short read, satisfies [Q]. *)
Definition tidy {A} (uid : bytes) (m : io A) (Q : A -> Prop) : Prop :=
  forall r,
    frames_until_short_read uid (trace (final (m (World r []))))
    /\ match m (World r []) with
       | Done a w => no_short_read (trace w) -> Q a
       | _ => True
       end.


(** [calm m]: [m] reads nothing from the device and is not a loop. *)
Definition calm {A} (m : io A) : Prop :=
  forall w,
    match m w with
    | Done _ w' | Raised _ w' => rfid w' = rfid w
    | Spin _ => False
    end.

(** [halts m]: [m] never runs out of loop fuel. *)
Definition halts {A} (m : io A) : Prop :=
  forall w w', m w <> Spin w'.

(** [throws m Q]: whatever the device holds, a result of [m] satisfies [Q]
    and the only exception [m] raises is [IndexError]. *)
Definition throws {A} (m : io A) (Q : A -> Prop) : Prop :=
  forall w,
    match m w with
    | Done a _ => Q a
    | Raised e _ => e = IndexError
    | Spin _ => True
    end.

(** [guarded m Q]: [m] raises only after a short read, and a result it
    reaches without one satisfies [Q]. *)
Definition guarded {A} (m : io A) (Q : A -> Prop) : Prop :=
  forall r,
    match m (World r []) with
    | Done a w => no_short_read (trace w) -> Q a
    | Raised _ w => ~ no_short_read (trace w)
    | Spin _ => True
    end.

(** [script] raises nothing but [IndexError], from any state of the device. *)
Definition raises_only_IndexError (script : io unit) : Prop :=
  forall w e w', script w = Raised e w' -> e = IndexError.

(** [script], run on a stream that gives it no short read, finishes
    normally. *)
Definition completes_on_full_reads (script : io unit) : Prop :=
  forall stream,
    no_short_read (trace (final (run script stream))) ->
    exists w, run script stream = Done tt w.

(** The reads and prints of dump_512_bytes.py for blocks that arrive whole,
    each with the number it is printed under. *)
Definition numbered (blocks : list (Z * bytes)) : list event :=
  flat_map (fun xb => [Read 4 (snd xb); Print (Block_dump (fst xb) (rev (snd xb)))])
           blocks.

(** The count check of dump_512_bytes.py (lines 35-36). *)
Definition count_warning (c : byte) (expected : Z) : list event :=
  if ord c =? expected then [] else [Print (Unexpected_count (ord c) expected)].

(** The 6-bit identifiers of [MODELS[0x02]]. *)
Definition six_bit_ids : list Z := [3; 6; 12; 7; 15].

(** What lines 99-117 print for the reversed UID [uid]. *)
Definition model_and_serial (iteration : list model_entry -> list model_entry)
           (uid : bytes) : list event :=
  trace (final (print_model_and_serial iteration uid (World [] []))).

(** What one turn of simple_uid_reader.py does with the frame of [uid_le]. *)
Definition turn_of (iteration : list model_entry -> list model_entry)
           (uid_le : bytes) : list event :=
  [Read 9 ("u" :: uid_le); Print (UID (rev uid_le))]
    ++ chip_family_warning uid_le ++ manufacturer_line uid_le
    ++ model_and_serial iteration (rev uid_le).

(** [alternates pending t]: in [t] no [os.write] comes while a frame
    written before is still without an [os.read] after it; [pending] says
    whether [t] starts in that state. *)
Fixpoint alternates (pending : bool) (t : list event) : bool :=
  match t with
  | [] => true
  | Write _ :: t' => negb pending && alternates true t'
  | Read _ _ :: t' => alternates false t'
  | Print _ :: t' => alternates pending t'
  end.

(** The state in which [t] ends. *)
Fixpoint pending_after (pending : bool) (t : list event) : bool :=
  match t with
  | [] => pending
  | Write _ :: t' => pending_after true t'
  | Read _ _ :: t' => pending_after false t'
  | Print _ :: t' => pending_after pending t'
  end.

(** [paces m p q]: started in state [p], [m] keeps writes and reads
    alternating and, when it returns, leaves the state [q]. *)
Definition paces {A} (m : io A) (p q : bool) : Prop :=
  forall r,
    alternates p (trace (final (m (World r [])))) = true
    /\ match m (World r []) with
       | Done _ w => pending_after p (trace w) = q
       | _ => True
       end.

(** [script] reads after every frame it writes before it writes again. *)
Definition one_request_at_a_time (script : io unit) : Prop :=
  forall stream, alternates false (trace (final (run script stream))) = true.

(** What every well-formed frame looks like from outside: its tag, its
    length, and for a multiple request the count byte after the UID. *)
Definition frame_shape (frame : bytes) : bool :=
  match frame with
  | [] => false
  | tag :: rest =>
      if Byte.eqb tag "p" then Nat.eqb (List.length rest) 0
      else if Byte.eqb tag "r" then Nat.eqb (List.length rest) 9
      else if Byte.eqb tag "w" then Nat.eqb (List.length rest) 13
      else if Byte.eqb tag "R"
      then match nth_error rest 8 with
           | Some count =>
               Nat.eqb (List.length rest) (9 + Byte.to_nat count)
           | None => false
           end
      else if Byte.eqb tag "W"
      then match nth_error rest 8 with
           | Some count =>
               Nat.eqb (List.length rest) (9 + 5 * Byte.to_nat count)
           | None => false
           end
      else false
  end.

(** The warning of the chip-family check, from the reversed UID. *)
Definition first_byte_warning (uid : bytes) : list event :=
  match uid with
  | c :: _ => if ord c =? 208 then [] else [Print (Unexpected_MSB (ord c))]
  | [] => []
  end.

(** * Properties *)

(** ** Python values *)

Lemma ord_range (c : byte) : 0 <= ord c < 256.
Proof.
  unfold ord. pose proof (Byte.to_N_bounded c). lia.
Qed.

Lemma byte_of_int_some (v : Z) :
  0 <= v < 256 -> exists c, byte_of_int v = Some c /\ ord c = v.
Proof.
  intros R. unfold byte_of_int.
  replace (0 <=? v) with true by (symmetry; apply Z.leb_le; lia).
  replace (v <? 256) with true by (symmetry; apply Z.ltb_lt; lia).
  simpl. destruct (Byte.of_N (Z.to_N v)) as [c|] eqn:E.
  - exists c. split; [reflexivity|].
    apply Byte.to_of_N in E. unfold ord. rewrite E. lia.
  - apply Byte.of_N_None_iff in E. lia.
Qed.

Lemma bytes_eqb_eq (a b : bytes) : bytes_eqb a b = true <-> a = b.
Proof.
  revert b. induction a as [|x a IH]; intros [|y b]; simpl; split;
    try congruence; try reflexivity.
  - intros H. apply andb_true_iff in H as [Hx Hab].
    apply Byte.byte_dec_bl in Hx. apply IH in Hab. congruence.
  - intros H. injection H as -> ->.
    apply andb_true_iff. split; [now apply Byte.byte_dec_lb | now apply IH].
Qed.

Lemma bytes_eqb_refl (a : bytes) : bytes_eqb a a = true.
Proof. now apply bytes_eqb_eq. Qed.

Lemma bytes_eqb_neq (a b : bytes) : a <> b -> bytes_eqb a b = false.
Proof.
  intros N. destruct (bytes_eqb a b) eqn:E; [|reflexivity].
  apply bytes_eqb_eq in E. contradiction.
Qed.

Lemma from_bytes_little_range (data : bytes) :
  0 <= from_bytes_little data < 256 ^ Z.of_nat (List.length data).
Proof.
  induction data as [|c data IH].
  - simpl. lia.
  - cbn [from_bytes_little List.length].
    rewrite Nat2Z.inj_succ, Z.pow_succ_r by lia.
    pose proof (ord_range c). lia.
Qed.

(** The digits of any integer are bytes, and they spell the integer modulo
    [256 ^ length]. *)
Lemma bytes_of_little_digits (length : nat) (n : Z) :
  exists data,
    bytes_of_ints (little_digits length n) = Some data
    /\ List.length data = length
    /\ from_bytes_little data = n mod 256 ^ Z.of_nat length.
Proof.
  revert n. induction length as [|length IH]; intros n.
  - exists []. simpl. rewrite Z.mod_1_r. auto.
  - cbn [little_digits bytes_of_ints].
    destruct (byte_of_int_some (n mod 256)) as (c & Hc & Hord).
    { apply Z.mod_pos_bound. lia. }
    destruct (IH (n / 256)) as (data & Hd & Hlen & Hval).
    rewrite Hc, Hd. exists (c :: data). split; [reflexivity|].
    split; [simpl; congruence|].
    cbn [from_bytes_little]. rewrite Hord, Hval.
    rewrite Nat2Z.inj_succ, Z.pow_succ_r by lia.
    rewrite Z.rem_mul_r by lia. reflexivity.
Qed.

(** ** C9: the decrement of write_block.py *)

(** A block read by [os.read(rfid, 4)] has at most four bytes, so the counter
    decoded from it is below [2 ^ 32]. *)
Lemma counter_of_block_range (data : bytes) :
  (List.length data <= 4)%nat -> 0 <= from_bytes_little data < 2 ^ 32.
Proof.
  intros L. pose proof (from_bytes_little_range data) as R.
  assert (256 ^ Z.of_nat (List.length data) <= 256 ^ 4).
  { apply Z.pow_le_mono_r; lia. }
  change (2 ^ 32) with (256 ^ 4). lia.
Qed.

(** C9.  For every counter in [0, 2^32), encoding [counter - 1] with
    [to_bytes(4, byteorder="little", signed=counter < 0)] raises nothing,
    gives exactly four bytes, and these are [(counter - 1) mod 2^32] in
    little-endian order. *)
Theorem decrement_encodes (counter : Z) :
  0 <= counter < 2 ^ 32 ->
  exists data,
    decrement counter = Some data
    /\ List.length data = 4%nat
    /\ from_bytes_little data = (counter - 1) mod 2 ^ 32.
Proof.
  intros R. unfold decrement, to_bytes_little.
  destruct (bytes_of_little_digits 4 (counter - 1)) as (data & Hd & Hlen & Hval).
  exists data. change (256 ^ Z.of_nat 4) with (2 ^ 32) in Hval.
  split; [|auto].
  change (8 * Z.of_nat 4) with 32.
  destruct (counter - 1 <? 0) eqn:Neg.
  - apply Z.ltb_lt in Neg.
    replace (- 2 ^ (32 - 1) <=? counter - 1) with true
      by (symmetry; apply Z.leb_le; lia).
    replace (counter - 1 <? 2 ^ (32 - 1)) with true
      by (symmetry; apply Z.ltb_lt; lia).
    exact Hd.
  - apply Z.ltb_ge in Neg.
    replace (0 <=? counter - 1) with true by (symmetry; apply Z.leb_le; lia).
    replace (counter - 1 <? 2 ^ 32) with true by (symmetry; apply Z.ltb_lt; lia).
    exact Hd.
Qed.

Lemma decrement_encodes_witness :
  0 <= 0 < 2 ^ 32
  /\ exists data,
       decrement 0 = Some data
       /\ List.length data = 4%nat
       /\ from_bytes_little data = (0 - 1) mod 2 ^ 32.
Proof.
  split; [lia | apply (decrement_encodes 0); lia].
Defined.

(** ** The model table of simple_uid_reader.py *)

Lemma item_some (b : bytes) (i : nat) (c : byte) (w : world) :
  nth_error b i = Some c -> item b i w = Done (ord c) w.
Proof. intros E. unfold item. now rewrite E. Qed.

Lemma item_none (b : bytes) (i : nat) (w : world) :
  nth_error b i = None -> item b i w = Raised IndexError w.
Proof. intros E. unfold item. now rewrite E. Qed.

(** Clearing in [u] the bits of its own top part leaves the low [k] bits. *)
Lemma clear_top_bits (u k : Z) :
  0 <= k ->
  Z.land u (Z.lnot (Z.shiftl (Z.shiftr u k) k)) = u mod 2 ^ k.
Proof.
  intros K. apply Z.bits_inj'. intros i I.
  rewrite Z.land_spec, Z.lnot_spec by lia.
  destruct (Z.lt_ge_cases i k) as [Low|High].
  - rewrite Z.shiftl_spec_low, Z.mod_pow2_bits_low by lia.
    simpl. apply andb_true_r.
  - rewrite Z.shiftl_spec, Z.shiftr_spec, Z.mod_pow2_bits_high by lia.
    replace (i - k + k) with i by lia. apply andb_negb_r.
Qed.

Lemma store_some (b : bytes) (i : nat) (c x : byte) :
  nth_error b i = Some x ->
  store b i c = Some (firstn i b ++ c :: skipn (S i) b).
Proof.
  revert i. induction b as [|y b IH]; intros [|i] E; simpl in *;
    try discriminate; [reflexivity|].
  rewrite (IH i E). reflexivity.
Qed.

(** The loop stops at the first element, in the order visited, that
    matches. *)
Lemma model_loop_find (entries : list model_entry) (uid : bytes) (u2 : byte)
      (w : world) :
  nth_error uid 2 = Some u2 ->
  model_loop entries uid w =
  match find (entry_matches (ord u2)) entries with
  | None => Done (uid, 2%nat, true) w
  | Some (bits, _, model_str) =>
      let w' := World (rfid w) (trace w ++ [Print (Model model_str)]) in
      if bits <? 8
      then match byte_of_int (ord u2 mod 2 ^ (8 - bits)) with
           | Some c => Done (firstn 2 uid ++ c :: skipn 3 uid, 2%nat, false) w'
           | None => Raised ValueError w'
           end
      else Done (uid, 3%nat, false) w'
  end.
Proof.
  intros U. induction entries as [|[[bits model_id] model_str] entries IH].
  - reflexivity.
  - cbn [model_loop find entry_matches].
    unfold bind at 1. rewrite (item_some _ _ _ _ U).
    destruct (bits <? 8) eqn:B.
    + destruct (Z.shiftr (ord u2) (8 - bits) =? model_id) eqn:M.
      * cbv zeta. rewrite B.
        apply Z.ltb_lt in B.
        unfold bind, print, emit. cbn [rfid trace].
        rewrite (item_some _ _ _ _ U).
        rewrite clear_top_bits by lia.
        unfold setitem.
        destruct (byte_of_int (ord u2 mod 2 ^ (8 - bits))) as [c|];
          [|reflexivity].
        rewrite (store_some _ _ _ _ U). reflexivity.
      * exact IH.
    + destruct (ord u2 =? model_id) eqn:M.
      * cbv zeta. rewrite B. reflexivity.
      * exact IH.
Qed.

Lemma find_unique {A} (p : A -> bool) (l l' : list A) :
  Permutation l l' ->
  (forall x y, In x l -> In y l -> p x = true -> p y = true -> x = y) ->
  find p l = find p l'.
Proof.
  intros P U.
  destruct (find p l) as [x|] eqn:F, (find p l') as [y|] eqn:F'.
  - apply find_some in F as [Ix Px]. apply find_some in F' as [Iy Py].
    f_equal. apply U; auto.
    apply Permutation_in with (l := l'); [now apply Permutation_sym | assumption].
  - apply find_some in F as [Ix Px].
    rewrite (find_none _ _ F' x) in Px; [discriminate|].
    now apply Permutation_in with (l := l).
  - apply find_some in F' as [Iy Py].
    rewrite (find_none _ _ F y) in Py; [discriminate|].
    apply Permutation_in with (l := l'); [now apply Permutation_sym | assumption].
  - reflexivity.
Qed.

Lemma model_loop_short (entries : list model_entry) (uid : bytes) (w : world) :
  nth_error uid 2 = None ->
  model_loop entries uid w =
  match entries with
  | [] => Done (uid, 2%nat, true) w
  | _ :: _ => Raised IndexError w
  end.
Proof.
  intros U. destruct entries as [|[[bits model_id] model_str] entries].
  - reflexivity.
  - cbn [model_loop]. unfold bind. now rewrite (item_none _ _ _ U).
Qed.

Lemma lookup_MODELS (m : Z) (entries : list model_entry) :
  lookup MODELS m = Some entries -> lookup MODELS 2 = Some entries.
Proof.
  unfold MODELS. cbn [lookup]. destruct (m =? 2); [auto | discriminate].
Qed.

(** Outside [overlap], at most one element of the set matches; checked on
    each of the 256 bytes. *)
Lemma few_matches (b : byte) (entries : list model_entry) :
  lookup MODELS 2 = Some entries ->
  existsb (Byte.eqb b) overlap
  || (List.length (filter (entry_matches (ord b)) entries) <=? 1)%nat = true.
Proof.
  intros E. injection E as <-. destruct b; vm_compute; reflexivity.
Qed.

Lemma unique_of_filter (model_byte : Z) (entries : list model_entry) :
  (List.length (filter (entry_matches model_byte) entries) <= 1)%nat ->
  unique_match model_byte entries.
Proof.
  intros L e1 e2 I1 I2 M1 M2.
  assert (F1 : In e1 (filter (entry_matches model_byte) entries))
    by (apply filter_In; auto).
  assert (F2 : In e2 (filter (entry_matches model_byte) entries))
    by (apply filter_In; auto).
  destruct (filter (entry_matches model_byte) entries) as [|x [|y l]];
    simpl in *; [tauto | | lia].
  destruct F1 as [<-|[]], F2 as [<-|[]]. reflexivity.
Qed.

Lemma unique_off_overlap (b : byte) (entries : list model_entry) :
  lookup MODELS 2 = Some entries ->
  ~ In b overlap -> unique_match (ord b) entries.
Proof.
  intros E N. apply unique_of_filter.
  pose proof (few_matches b entries E) as F.
  apply orb_true_iff in F as [F|F].
  - exfalso. apply N. apply existsb_exists in F as (c & Ic & Ec).
    apply Byte.byte_dec_bl in Ec. now subst c.
  - now apply Nat.leb_le.
Qed.

Lemma unique_match_perm (model_byte : Z) (l l' : list model_entry) :
  Permutation l l' -> unique_match model_byte l' -> unique_match model_byte l.
Proof.
  intros P U e1 e2 I1 I2. apply U; now apply Permutation_in with (l := l).
Qed.

(** ** C8: which model the reader names *)

(** C8, as the code has it.  For every model byte outside [0x1B], [0x1F],
    [0x33] and [0x3F], at most one element of a [MODELS] set matches, and
    then what lines 99-117 print and leave behind is the same for any two
    orders in which the set may be visited. *)
Theorem model_deterministic_off_overlap :
  (forall m entries (b : byte),
      lookup MODELS m = Some entries ->
      ~ In b overlap -> unique_match (ord b) entries)
  /\ (forall (it1 it2 : list model_entry -> list model_entry) uid w,
         (forall s, Permutation (it1 s) s) ->
         (forall s, Permutation (it2 s) s) ->
         (forall b, nth_error uid 2 = Some b -> ~ In b overlap) ->
         print_model_and_serial it1 uid w = print_model_and_serial it2 uid w).
Proof.
  split.
  - intros m entries b E. apply unique_off_overlap. eapply lookup_MODELS, E.
  - intros it1 it2 uid w P1 P2 N.
    unfold print_model_and_serial, bind.
    destruct (item uid 1 w) as [m w1| |]; try reflexivity.
    destruct (lookup MODELS m) as [entries|] eqn:E; [|reflexivity].
    replace (model_loop (it2 entries) uid w1)
      with (model_loop (it1 entries) uid w1); [reflexivity|].
    assert (P : Permutation (it1 entries) (it2 entries)).
    { eapply Permutation_trans; [apply P1 | apply Permutation_sym, P2]. }
    destruct (nth_error uid 2) as [b|] eqn:U.
    + rewrite !(model_loop_find _ _ _ _ U).
      rewrite (find_unique _ _ _ P); [reflexivity|].
      apply unique_match_perm with (l' := entries); [apply P1|].
      apply unique_off_overlap; [eapply lookup_MODELS, E | now apply N].
    + rewrite !(model_loop_short _ _ _ U).
      apply Permutation_length in P.
      destruct (it1 entries), (it2 entries); simpl in P;
        try discriminate; reflexivity.
Qed.

Lemma model_deterministic_off_overlap_witness :
  let uid := [xd0; x02; x0c; x04; x05; x06; x07; x08] in
  print_model_and_serial (fun s => s) uid (World [] [])
  = print_model_and_serial (@rev model_entry) uid (World [] []).
Proof.
  apply (proj2 model_deterministic_off_overlap).
  - intros s. apply Permutation_refl.
  - intros s. apply Permutation_sym, Permutation_rev.
  - intros b E. injection E as <-. simpl.
    intros [H|[H|[H|[H|[]]]]]; discriminate H.
Defined.

(** C8 as worded fails at the model byte [0x1B]: the 6-bit entry of SRI512
    and the 8-bit entry of ST25TB512-AC both match it, and the two orders
    below make the reader print different models and serial numbers for the
    same UID. *)
Lemma model_depends_on_iteration :
  let uid := [xd0; x02; x1b; x04; x05; x06; x07; x08] in
  (exists entries,
      lookup MODELS 2 = Some entries /\ ~ unique_match (ord x1b) entries)
  /\ print_model_and_serial (fun s => s) uid (World [] [])
     = Done tt (World [] [Print (Model "SRI512");
                          Print (Serial_number [x03; x04; x05; x06; x07; x08])])
  /\ print_model_and_serial (@rev model_entry) uid (World [] [])
     = Done tt (World [] [Print (Model "ST25TB512-AC");
                          Print (Serial_number [x04; x05; x06; x07; x08])]).
Proof.
  split; [|split; reflexivity].
  eexists. split; [reflexivity|].
  intros U.
  specialize (U (6, 6, "SRI512"%string) (8, 27, "ST25TB512-AC"%string)).
  discriminate U; simpl; auto 10.
Qed.

(** ** C10: the serial number *)

(** C10.  Lines 99-117 end by printing a serial number that leaves out the
    bits of the matched model: after a match on an entry of width
    [bits < 8] the serial starts at index 2 with a byte that is [uid[2]]
    with its top [bits] bits cleared; after a match on an 8-bit entry it
    starts at index 3; without a match it starts at index 2 and [uid[2]] is
    as it was.  The matched entry is the first one, in the order the set is
    visited, that matches. *)
Theorem serial_excludes_model_bits
        (iteration : list model_entry -> list model_entry)
        (uid : bytes) (m u2 : byte) (w : world) :
  nth_error uid 1 = Some m ->
  nth_error uid 2 = Some u2 ->
  exists shown serial,
    print_model_and_serial iteration uid w
    = Done tt (World (rfid w)
                     (trace w ++ shown ++ [Print (Serial_number serial)]))
    /\ match lookup MODELS (ord m) with
       | None => serial = skipn 2 uid
       | Some entries =>
           match find (entry_matches (ord u2)) (iteration entries) with
           | None => serial = skipn 2 uid
           | Some (bits, _, _) =>
               if bits <? 8
               then exists c,
                   serial = c :: skipn 3 uid
                   /\ ord c = ord u2 mod 2 ^ (8 - bits)
                   /\ Z.shiftr (ord c) (8 - bits) = 0
               else serial = skipn 3 uid
           end
       end.
Proof.
  intros M U. unfold print_model_and_serial, bind.
  rewrite (item_some _ _ _ _ M).
  destruct (lookup MODELS (ord m)) as [entries|].
  - rewrite (model_loop_find _ _ _ _ U).
    destruct (find (entry_matches (ord u2)) (iteration entries))
      as [[[bits model_id] model_str]|].
    + cbv zeta. destruct (bits <? 8) eqn:B.
      * apply Z.ltb_lt in B.
        destruct (byte_of_int_some (ord u2 mod 2 ^ (8 - bits)))
          as (c & Hc & Hord).
        { pose proof (ord_range u2) as R.
          pose proof (Z.mod_pos_bound (ord u2) (2 ^ (8 - bits))) as P.
          assert (0 < 2 ^ (8 - bits)) by (apply Z.pow_pos_nonneg; lia).
          pose proof (Z.mod_le (ord u2) (2 ^ (8 - bits))). lia. }
        rewrite Hc. exists [Print (Model model_str)], (c :: skipn 3 uid).
        split.
        -- unfold ret, print, emit. cbn [rfid trace].
           rewrite <- app_assoc. do 3 f_equal.
           assert (L : List.length (firstn 2 uid) = 2%nat).
           { apply firstn_length_le.
             assert (2 < List.length uid)%nat; [|lia].
             apply nth_error_Some. congruence. }
           rewrite skipn_app, L. simpl Nat.sub.
           rewrite skipn_all2 by lia. reflexivity.
        -- exists c. split; [reflexivity|]. split; [exact Hord|].
           rewrite Hord, Z.shiftr_div_pow2 by lia.
           apply Z.div_small. apply Z.mod_pos_bound.
           apply Z.pow_pos_nonneg; lia.
      * exists [Print (Model model_str)], (skipn 3 uid). split; [|reflexivity].
        unfold ret, print, emit. cbn [rfid trace].
        now rewrite <- app_assoc.
    + rewrite (item_some _ _ _ _ U).
      exists [Print (Model_unknown (ord u2))], (skipn 2 uid).
      split; [|reflexivity].
      unfold ret, print, emit. cbn [rfid trace]. now rewrite <- app_assoc.
  - exists [], (skipn 2 uid). split; reflexivity.
Qed.

Lemma serial_excludes_model_bits_witness :
  let uid := [xd0; x02; x1b; x04; x05; x06; x07; x08] in
  exists shown serial,
    print_model_and_serial (fun s => s) uid (World [] [])
    = Done tt (World [] ([] ++ shown ++ [Print (Serial_number serial)]))
    /\ exists c,
        serial = c :: skipn 3 uid
        /\ ord c = ord x1b mod 2 ^ (8 - 6)
        /\ Z.shiftr (ord c) (8 - 6) = 0.
Proof.
  exact (serial_excludes_model_bits (fun s => s)
           [xd0; x02; x1b; x04; x05; x06; x07; x08] x02 x1b (World [] [])
           eq_refl eq_refl).
Defined.

(** ** The monad: traces only grow *)

Lemma extend_extend {A} (t t' : list event) (o : outcome A) :
  extend t (extend t' o) = extend (t ++ t') o.
Proof. destruct o; simpl; now rewrite app_assoc. Qed.

Lemma uniform_ret {A} (a : A) : uniform (ret a).
Proof. intros r t. simpl. now rewrite app_nil_r. Qed.

Lemma uniform_raise {A} (e : exn) : uniform (@raise A e).
Proof. intros r t. simpl. now rewrite app_nil_r. Qed.

Lemma uniform_emit (e : event) : uniform (emit e).
Proof. intros r t. reflexivity. Qed.

Lemma uniform_print (l : line) : uniform (print l).
Proof. apply uniform_emit. Qed.

Lemma uniform_os_write (f : bytes) : uniform (os_write f).
Proof. apply uniform_emit. Qed.

Lemma uniform_os_read (n : nat) : uniform (os_read n).
Proof. intros r t. reflexivity. Qed.

Lemma uniform_bind {A B} (m : io A) (k : A -> io B) :
  uniform m -> (forall a, uniform (k a)) -> uniform (bind m k).
Proof.
  intros Hm Hk r t. unfold bind. rewrite (Hm r t).
  destruct (m (World r [])) as [a [r1 t1]| |]; simpl; try reflexivity.
  rewrite (Hk a r1 (t ++ t1)), (Hk a r1 t1). now rewrite extend_extend.
Qed.

Lemma uniform_item (b : bytes) (i : nat) : uniform (item b i).
Proof.
  unfold item. destruct (nth_error b i);
    [apply uniform_ret | apply uniform_raise].
Qed.

Lemma uniform_setitem (b : bytes) (i : nat) (v : Z) : uniform (setitem b i v).
Proof.
  unfold setitem. destruct (byte_of_int v); [|apply uniform_raise].
  destruct (store b i b0); [apply uniform_ret | apply uniform_raise].
Qed.

Lemma uniform_when (c : bool) (m : io unit) : uniform m -> uniform (when c m).
Proof. intros H. destruct c; [exact H | apply uniform_ret]. Qed.

Lemma uniform_for_each {A} (xs : list A) (body : A -> io unit) :
  (forall x, uniform (body x)) -> uniform (for_each xs body).
Proof.
  intros H. induction xs as [|x xs IH]; simpl.
  - apply uniform_ret.
  - apply uniform_bind; auto.
Qed.

Lemma uniform_while_u (fuel : nat) (packet : bytes) :
  uniform (while_u fuel packet).
Proof.
  revert packet. induction fuel as [|fuel IH]; intros packet; simpl;
    destruct (bytes_eqb packet ["u"]); try apply uniform_ret.
  - intros r t. simpl. now rewrite app_nil_r.
  - apply uniform_bind; [apply uniform_os_read|]. intros _.
    apply uniform_bind; [apply uniform_os_read|]. exact IH.
Qed.

Lemma uniform_while_packet_is_u (packet : bytes) :
  uniform (while_packet_is_u packet).
Proof. intros r t. unfold while_packet_is_u. apply uniform_while_u. Qed.

Create HintDb uniform.
#[local] Hint Resolve uniform_ret uniform_raise uniform_print uniform_os_write
  uniform_os_read uniform_item uniform_setitem uniform_while_packet_is_u
  : uniform.

(** Uniformity of a computation written with the combinators above. *)
Ltac uniform :=
  repeat first
    [ progress auto with uniform
    | apply uniform_bind; [|intros]
    | apply uniform_when
    | apply uniform_for_each; intros
    | match goal with
      | |- uniform (if ?c then _ else _) => destruct c
      | |- uniform (match ?x with _ => _ end) => destruct x
      end ].

(** ** The announcement loop *)

Lemma firstn_8_app (uid rest : bytes) :
  eight uid -> firstn 8 (uid ++ rest) = uid /\ skipn 8 (uid ++ rest) = rest.
Proof.
  unfold eight. intros L. split.
  - rewrite <- L. rewrite firstn_app, Nat.sub_diag, firstn_all. simpl.
    apply app_nil_r.
  - rewrite <- L. rewrite skipn_app, Nat.sub_diag, skipn_all. reflexivity.
Qed.

(** With enough fuel the loop ends, and it never raises. *)
Lemma while_u_total (fuel : nat) (packet : bytes) (w : world) :
  (bytes_eqb packet ["u"] = true -> (List.length (rfid w) < fuel)%nat) ->
  exists packet' w', while_u fuel packet w = Done packet' w'.
Proof.
  revert packet w. induction fuel as [|fuel IH]; intros packet w F; simpl.
  - destruct (bytes_eqb packet ["u"]); [specialize (F eq_refl); lia|].
    now exists packet, w.
  - destruct (bytes_eqb packet ["u"]); [|now exists packet, w].
    specialize (F eq_refl). unfold bind, os_read. cbn [rfid trace].
    apply IH. cbn [rfid]. intros U. apply bytes_eqb_eq in U.
    destruct (skipn 8 (rfid w)) as [|c s] eqn:S8; [discriminate|].
    pose proof (length_skipn 8 (rfid w)) as L. rewrite S8 in L.
    simpl in *. lia.
Qed.

Lemma while_packet_is_u_total (packet : bytes) (w : world) :
  exists packet' w', while_packet_is_u packet w = Done packet' w'.
Proof. apply while_u_total. lia. Qed.

Lemma length_announcements (uids : list bytes) :
  Forall eight uids ->
  List.length (announcements uids) = (9 * List.length uids)%nat.
Proof.
  induction 1 as [|uid uids E _ IH]; [reflexivity|].
  unfold eight in E. cbn [announcements flat_map]. fold (announcements uids).
  cbn [List.length app]. rewrite length_app, E, IH. lia.
Qed.

(** The loop entered on a stream that starts with announcements: it reads
    them away and leaves with the first byte after them. *)
Lemma while_u_skips (fuel : nat) (uids : list bytes) (rest : bytes)
      (t : list event) :
  Forall eight uids ->
  firstn 1 rest <> ["u"] ->
  (List.length uids <= fuel)%nat ->
  let s := announcements uids ++ rest in
  while_u fuel (firstn 1 s) (World (skipn 1 s) (t ++ [Read 1 (firstn 1 s)]))
  = Done (firstn 1 rest)
         (World (skipn 1 rest)
                (t ++ skipped uids ++ [Read 1 (firstn 1 rest)])).
Proof.
  intros E R. revert fuel t.
  induction E as [|uid uids E8 E IH]; intros fuel t F; cbv zeta.
  - simpl announcements. simpl skipped. cbn [app].
    destruct fuel; cbn [while_u]; now rewrite (bytes_eqb_neq _ _ R).
  - destruct fuel as [|fuel]; [simpl in F; lia|].
    cbn [announcements flat_map app firstn skipn].
    fold (announcements uids).
    cbn [while_u bytes_eqb]. change (Byte.eqb "u" "u") with true.
    cbn [andb]. unfold bind at 1. unfold os_read at 1. cbn [rfid trace].
    rewrite <- app_assoc.
    destruct (firstn_8_app uid (announcements uids ++ rest) E8) as [-> ->].
    unfold bind, os_read. cbn [rfid trace].
    specialize (IH fuel (t ++ [Read 1 ["u"]; Read 8 uid])).
    cbv zeta in IH. rewrite <- !app_assoc in IH. cbn [app] in IH.
    rewrite <- !app_assoc. cbn [app].
    rewrite IH by (simpl in F; lia).
    cbn [skipped flat_map app]. reflexivity.
Qed.

(** The same for the three lines as the scripts have them, followed by
    whatever comes next. *)
Lemma await_skips {A} (K : bytes -> io A) (uids : list bytes) (rest : bytes)
      (t : list event) :
  Forall eight uids ->
  firstn 1 rest <> ["u"] ->
  (packet <- os_read 1 ;; packet <- while_packet_is_u packet ;; K packet)
    (World (announcements uids ++ rest) t)
  = K (firstn 1 rest)
      (World (skipn 1 rest) (t ++ skipped uids ++ [Read 1 (firstn 1 rest)])).
Proof.
  intros E R. unfold bind at 1. unfold os_read at 1. cbn [rfid trace].
  unfold bind at 1. unfold while_packet_is_u. cbn [rfid].
  rewrite (while_u_skips _ uids rest t E R); [reflexivity|].
  rewrite length_skipn, length_app, (length_announcements _ E). lia.
Qed.

Lemma first_not_u (c : byte) (tail : bytes) :
  c <> "u" -> firstn 1 (c :: tail) <> ["u"].
Proof. simpl. congruence. Qed.

Lemma byte_eqb_neq (a b : byte) : a <> b -> Byte.eqb a b = false.
Proof.
  intros N. destruct (Byte.eqb a b) eqn:E; [|reflexivity].
  apply Byte.byte_dec_bl in E. contradiction.
Qed.

Lemma byte_eqb_refl (a : byte) : Byte.eqb a a = true.
Proof. now apply Byte.byte_dec_lb. Qed.

Lemma ord_inj (a b : byte) : ord a = ord b -> a = b.
Proof.
  unfold ord. intros E. apply N2Z.inj in E.
  assert (Some a = Some b) as H; [|now injection H].
  rewrite <- (Byte.of_to_N a), <- (Byte.of_to_N b). now rewrite E.
Qed.

Lemma ord_eqb (a b : byte) : (ord a =? ord b) = Byte.eqb a b.
Proof.
  destruct (Byte.eqb a b) eqn:E.
  - apply Byte.byte_dec_bl in E. subst. apply Z.eqb_refl.
  - apply Z.eqb_neq. intros H. apply ord_inj in H. subst.
    now rewrite byte_eqb_refl in E.
Qed.

(** ** Transactions that drain announcements *)

Lemma exchange_skips {A} (frame : bytes) (K : bytes -> io A)
      (uids : list bytes) (rest : bytes) (t : list event) :
  Forall eight uids ->
  firstn 1 rest <> ["u"] ->
  exchange frame K (World (announcements uids ++ rest) t)
  = K (firstn 1 rest)
      (World (skipn 1 rest)
             (t ++ [Write frame] ++ skipped uids ++ [Read 1 (firstn 1 rest)])).
Proof.
  intros E R. unfold exchange. unfold bind at 1.
  cbn [os_write emit rfid trace].
  rewrite (await_skips K uids rest _ E R). now rewrite <- app_assoc.
Qed.

Lemma exchange_absorbs (frame : bytes) (K : bytes -> io unit) :
  (forall packet, uniform (K packet)) -> absorbs (exchange frame K).
Proof.
  intros U uids rest t E R.
  exists frame,
    (K (firstn 1 rest) (World (skipn 1 rest) [Read 1 (firstn 1 rest)])).
  split.
  - change rest with (announcements [] ++ rest) at 1.
    rewrite (exchange_skips frame K [] rest t (Forall_nil _) R).
    rewrite (U _ _ (t ++ _)), (U _ _ [Read 1 _]), extend_extend.
    simpl skipped. now rewrite <- !app_assoc.
  - rewrite (exchange_skips frame K uids rest t E R).
    rewrite (U _ _ (t ++ _)), (U _ _ [Read 1 _]), extend_extend.
    now rewrite <- !app_assoc.
Qed.

(** ** C1: announcements before a reply *)

(** C1, as the code has it.  In every script the transaction that follows
    the poll, and both reads of read_system_block.py, drain the
    announcement frames in front of the reply with the loop, and apart
    from the reads spent on them the transaction goes on exactly as it does
    without them: same decoded reply, same prints, same later writes, same
    bytes left on the device. *)
Theorem announcements_absorbed (uid_le : bytes) :
  absorbs (dump_512_bytes_read uid_le)
  /\ absorbs (dump_counter_read uid_le)
  /\ absorbs (erase_blocks_write uid_le)
  /\ absorbs (read_system_block_single uid_le)
  /\ absorbs (read_system_block_multiple uid_le)
  /\ absorbs (write_block_cycle uid_le)
  /\ absorbs (write_blocks_cycle uid_le).
Proof.
  repeat split;
    (eapply (exchange_absorbs _ (fun packet => _)); intros packet; uniform).
Qed.

Lemma announcements_absorbed_witness :
  let uid_le := [x0a; x09; x08; x07; x06; x05; x02; xd0] in
  let rest := ["R"; x02; x01; x00; x00; x00; x02; x00; x00; x00] in
  exists frame o,
    dump_counter_read uid_le (World rest []) = extend ([] ++ [Write frame]) o
    /\ dump_counter_read uid_le (World (announcements [uid_le] ++ rest) [])
       = extend ([] ++ [Write frame] ++ skipped [uid_le]) o.
Proof.
  apply (proj1 (proj2 (announcements_absorbed
                         [x0a; x09; x08; x07; x06; x05; x02; xd0]))).
  - repeat constructor.
  - simpl. discriminate.
Defined.

(** C1 as worded fails in two places.  The poll has no loop: with a frame
    [u] in front of its reply, that frame is the UID the script goes on
    with.  The write of write_block.py has no loop either: a frame [u] in
    front of the echo is reported as an unexpected packet, and the echo
    stays unread on the device. *)
Lemma announcement_changes_reply :
  let a := [x01; x02; x03; x04; x05; x06; x02; xd0] in
  let b := [x0a; x09; x08; x07; x06; x05; x02; xd0] in
  let blocks := ["R"; x02; x01; x00; x00; x00; x02; x00; x00; x00] in
  let read := ["r"; x06; x00; x00; x00] in
  let echo := ["w"; x05; x00; x00; x00] in
  (writes (trace (final (run dump_counter ("u" :: b ++ blocks))))
   = [["p"]; ["R"] ++ b ++ [x02; x05; x06]]
   /\ writes (trace (final (run dump_counter
                              ("u" :: a ++ "u" :: b ++ blocks))))
      = [["p"]; ["R"] ++ a ++ [x02; x05; x06]])
  /\ (run write_block ("u" :: b ++ read ++ echo)
      = Done tt (World []
           [Print Waiting_for_a_chip; Write ["p"]; Read 9 ("u" :: b);
            Print (UID (rev b)); Write (["r"] ++ b ++ [x07]);
            Read 1 ["r"]; Read 4 [x06; x00; x00; x00];
            Print (Counter_decrementing 6);
            Write (["w"] ++ b ++ [x07; x05; x00; x00; x00]);
            Read 1 ["w"]; Read 4 [x05; x00; x00; x00]])
      /\ run write_block ("u" :: b ++ read ++ "u" :: b ++ echo)
         = Done tt (World (b ++ echo)
              [Print Waiting_for_a_chip; Write ["p"]; Read 9 ("u" :: b);
               Print (UID (rev b)); Write (["r"] ++ b ++ [x07]);
               Read 1 ["r"]; Read 4 [x06; x00; x00; x00];
               Print (Counter_decrementing 6);
               Write (["w"] ++ b ++ [x07; x05; x00; x00; x00]);
               Read 1 ["u"]; Print (Unexpected_packet ["u"])])).
Proof. repeat split; reflexivity. Qed.

(** ** C5: a header that is neither an announcement nor the reply *)

(** Run a transaction of the shape [exchange] up to the end of its loop. *)
Ltac drain E R :=
  etransitivity;
  [ eapply (exchange_skips _ (fun packet => _) _ _ _ E R) | ].

(** C5.  In every transaction, a first byte [c] after the announcements
    that is neither [u] nor the tag of the reply is printed as an unexpected
    header (an unexpected packet after the writes of write_block.py and
    write_blocks.py); the transaction then ends normally, having read
    nothing after that byte (the nine bytes of a poll are read at once) and
    written its request once.  The same holds for the poll and for a turn
    of simple_uid_reader.py, where the expected header is [u]. *)
Theorem unexpected_header_ends
        (c : byte) (uids : list bytes) (tail uid_le : bytes) (t : list event) :
  c <> "u" ->
  Forall eight uids ->
  let stream := announcements uids ++ c :: tail in
  let ends := ends_unexpected c uids tail t in
  (c <> "R" ->
   dump_512_bytes_read uid_le (World stream t)
   = ends (["R"] ++ uid_le
           ++ [x10; x00; x01; x02; x03; x04; x05; x06; x07; x08; x09;
               x0a; x0b; x0c; x0d; x0e; x0f])
   /\ dump_counter_read uid_le (World stream t)
      = ends (["R"] ++ uid_le ++ [x02; x05; x06])
   /\ read_system_block_multiple uid_le (World stream t)
      = ends (["R"] ++ uid_le ++ [x01; xff])
   /\ write_blocks_cycle uid_le (World stream t)
      = ends (["R"] ++ uid_le ++ [x03; x07; x08; x09]))
  /\ (c <> "r" ->
      read_system_block_single uid_le (World stream t)
      = ends (["r"] ++ uid_le ++ [xff])
      /\ write_block_cycle uid_le (World stream t)
         = ends (["r"] ++ uid_le ++ [x07]))
  /\ (c <> "W" ->
      erase_blocks_write uid_le (World stream t)
      = ends (["W"] ++ uid_le ++ [x03; x07; x08; x09] ++ erased_data)
      /\ forall block7 block8 block9,
          write_blocks_write uid_le block7 block8 block9 (World (c :: tail) t)
          = Done tt (World tail
                       (t ++ [Write (["W"] ++ uid_le ++ [x03; x07; x08; x09]
                                      ++ block8 ++ block9 ++ block7);
                              Read 1 [c]; Print (Unexpected_packet [c])])))
  /\ (c <> "w" ->
      forall data,
        write_block_write uid_le data (World (c :: tail) t)
        = Done tt (World tail
                     (t ++ [Write (["w"] ++ uid_le ++ [x07] ++ data);
                            Read 1 [c]; Print (Unexpected_packet [c])])))
  /\ (forall body,
        poll_uid body (World (c :: tail) t)
        = Done tt (World (skipn 8 tail)
                     (t ++ [Print Waiting_for_a_chip; Write ["p"];
                            Read 9 (c :: firstn 8 tail);
                            Print (Unexpected_packet_header (ord c))])))
  /\ (forall iteration,
        reader_turn iteration (World (c :: tail) t)
        = Done false (World (skipn 8 tail)
                        (t ++ [Read 9 (c :: firstn 8 tail);
                               Print (Unexpected_packet_header (ord c))]))).
Proof.
  intros U E stream ends. subst stream ends. unfold ends_unexpected.
  repeat split; intros.
  1-7: match goal with
       | H : _ <> _ |- ?tx _ _ = _ =>
           drain E (first_not_u _ tail U);
           cbn [firstn skipn bytes_eqb]; rewrite (byte_eqb_neq _ _ H);
           cbn [andb]; unfold bind, item, print, emit, ret;
           cbn [nth_error rfid trace];
           rewrite <- !app_assoc; reflexivity
       end.
  - unfold write_blocks_write, bind, os_write, os_read, print, emit.
    cbn [firstn skipn bytes_eqb rfid trace].
    rewrite (byte_eqb_neq _ _ H). cbn [andb rfid trace].
    now rewrite <- !app_assoc.
  - unfold write_block_write, bind, os_write, os_read, print, emit.
    cbn [firstn skipn bytes_eqb rfid trace].
    rewrite (byte_eqb_neq _ _ H). cbn [andb rfid trace].
    now rewrite <- !app_assoc.
  - unfold poll_uid, bind, os_write, os_read, print, emit, item, ret.
    cbn [firstn skipn nth_error rfid trace].
    rewrite ord_eqb, (byte_eqb_neq _ _ U). cbn [negb rfid trace].
    now rewrite <- !app_assoc.
  - unfold reader_turn, bind, os_read, print, emit, item, ret.
    cbn [firstn skipn nth_error rfid trace].
    rewrite ord_eqb, (byte_eqb_neq _ _ U). cbn [negb rfid trace].
    now rewrite <- !app_assoc.
Qed.

Lemma unexpected_header_ends_witness :
  let uid_le := [x0a; x09; x08; x07; x06; x05; x02; xd0] in
  "x" <> "u"
  /\ Forall eight [uid_le]
  /\ read_system_block_single uid_le
       (World (announcements [uid_le] ++ ["x"; x00]) [])
     = ends_unexpected "x" [uid_le] [x00] [] (["r"] ++ uid_le ++ [xff]).
Proof.
  split; [discriminate|]. split; [repeat constructor|].
  pose proof (unexpected_header_ends
                "x" [[x0a; x09; x08; x07; x06; x05; x02; xd0]] [x00]
                [x0a; x09; x08; x07; x06; x05; x02; xd0] []) as H.
  cbv zeta in H.
  destruct H as (_ & H & _); [discriminate | repeat constructor |].
  destruct H as (H & _); [discriminate|]. exact H.
Defined.

(** ** C2: a count that is not the one asked for *)

Lemma for_each_dump (xs : list Z) (s : bytes) (t : list event) :
  for_each xs (fun x => data <- os_read 4 ;; print (Block_dump x (rev data)))
           (World s t)
  = Done tt (World (skipn (4 * List.length xs) s) (t ++ dumped xs s)).
Proof.
  revert s t. induction xs as [|x xs IH]; intros s t.
  - simpl. unfold ret. now rewrite app_nil_r.
  - cbn [for_each]. unfold bind at 1. unfold bind at 1.
    unfold os_read, print, emit. cbn [rfid trace].
    rewrite IH, skipn_skipn. cbn [dumped].
    rewrite <- !app_assoc. cbn [app]. do 3 f_equal.
    cbn [List.length]. lia.
Qed.

Lemma length_range (a b : Z) : List.length (range a b) = Z.to_nat (b - a).
Proof. unfold range. now rewrite length_map, length_seq. Qed.

Lemma eqb_ord (c d : byte) : c <> d -> (ord c =? ord d) = false.
Proof. intros N. rewrite ord_eqb. now apply byte_eqb_neq. Qed.

(** C2, as the code has it.  A multi-block reply whose count byte [c] is
    not the number of blocks asked for is reported as an unexpected count
    and the transaction ends normally.  What is read after the report
    differs: dump_512_bytes.py reads [c] blocks of four bytes,
    dump_counter.py and read_system_block.py read the two blocks and the
    one block they asked for, erase_blocks.py and write_blocks.py read
    nothing. *)
Theorem count_mismatch_reported
        (c : byte) (uids : list bytes) (tail uid_le : bytes) (t : list event) :
  Forall eight uids ->
  let stream tag := announcements uids ++ tag :: c :: tail in
  let reported frame tag l :=
    t ++ [Write frame] ++ skipped uids ++ [Read 1 [tag]; Read 1 [c]; Print l] in
  (c <> x10 ->
   dump_512_bytes_read uid_le (World (stream "R") t)
   = Done tt (World (skipn (4 * Z.to_nat (ord c)) tail)
                (reported (["R"] ++ uid_le
                           ++ [x10; x00; x01; x02; x03; x04; x05; x06; x07;
                               x08; x09; x0a; x0b; x0c; x0d; x0e; x0f])
                          "R" (Unexpected_count (ord c) 16)
                 ++ dumped (range 0 (ord c)) tail))
   /\ List.length (range 0 (ord c)) = Z.to_nat (ord c))
  /\ (c <> x02 ->
      dump_counter_read uid_le (World (stream "R") t)
      = Done tt (World (skipn 4 (skipn 4 tail))
                   (reported (["R"] ++ uid_le ++ [x02; x05; x06])
                             "R" (Unexpected_count (ord c) 2)
                    ++ [Read 4 (firstn 4 tail);
                        Print (Block_counter 5
                                 (from_bytes_little (firstn 4 tail))
                                 (firstn 4 tail));
                        Read 4 (firstn 4 (skipn 4 tail));
                        Print (Block_counter 6
                                 (from_bytes_little (firstn 4 (skipn 4 tail)))
                                 (firstn 4 (skipn 4 tail)))])))
  /\ (c <> x01 ->
      read_system_block_multiple uid_le (World (stream "R") t)
      = Done tt (World (skipn 4 tail)
                   (reported (["R"] ++ uid_le ++ [x01; xff])
                             "R" (Unexpected_count_repr [c] 1)
                    ++ [Read 4 (firstn 4 tail);
                        Print (Data_read_block (rev (firstn 4 tail)))])))
  /\ (c <> x03 ->
      erase_blocks_write uid_le (World (stream "W") t)
      = Done tt (World tail
                   (reported (["W"] ++ uid_le ++ [x03; x07; x08; x09]
                              ++ erased_data)
                             "W" (Unexpected_count (ord c) 3)))
      /\ write_blocks_cycle uid_le (World (stream "R") t)
         = Done tt (World tail
                      (reported (["R"] ++ uid_le ++ [x03; x07; x08; x09])
                                "R" (Unexpected_count (ord c) 3)))
      /\ forall block7 block8 block9,
          write_blocks_write uid_le block7 block8 block9
                             (World ("W" :: c :: tail) t)
          = Done tt (World tail
                       (t ++ [Write (["W"] ++ uid_le ++ [x03; x07; x08; x09]
                                      ++ block8 ++ block9 ++ block7);
                              Read 1 ["W"]; Read 1 [c];
                              Print (Unexpected_count (ord c) 3)]))).
Proof.
  intros E stream reported. subst stream reported.
  assert (R : forall tag, tag <> "u" ->
                          firstn 1 (tag :: c :: tail) <> ["u"])
    by (intros; now apply first_not_u).
  repeat split; intros.
  - drain E (R "R" ltac:(discriminate)).
    cbn [firstn skipn bytes_eqb]. change (Byte.eqb "R" "R") with true.
    cbn [andb]. unfold bind at 1. unfold os_read at 1.
    cbn [firstn skipn rfid trace].
    unfold bind at 1. unfold item at 1. cbn [nth_error]. unfold ret at 1.
    change 16 with (ord x10) at 1. rewrite (eqb_ord _ _ H).
    unfold bind at 1. cbn [negb when]. unfold print at 1, emit at 1.
    cbn [rfid trace].
    rewrite for_each_dump, length_range, Z.sub_0_r.
    now rewrite <- !app_assoc.
  - rewrite length_range. f_equal. lia.
  - drain E (R "R" ltac:(discriminate)).
    cbn [firstn skipn bytes_eqb]. change (Byte.eqb "R" "R") with true.
    cbn [andb]. unfold bind at 1. unfold os_read at 1.
    cbn [firstn skipn rfid trace].
    unfold bind at 1. unfold item at 1. cbn [nth_error]. unfold ret at 1.
    change 2 with (ord x02) at 1. rewrite (eqb_ord _ _ H).
    unfold bind at 1. cbn [negb when]. unfold print at 1, emit at 1.
    cbn [rfid trace].
    change (range 5 7) with [5; 6]. cbn [for_each].
    unfold bind, os_read, print, emit, ret. cbn [rfid trace].
    now rewrite <- !app_assoc.
  - drain E (R "R" ltac:(discriminate)).
    cbn [firstn skipn bytes_eqb]. change (Byte.eqb "R" "R") with true.
    cbn [andb]. unfold bind at 1. unfold os_read at 1.
    cbn [firstn skipn rfid trace].
    unfold bind at 1. unfold item at 1. cbn [nth_error]. unfold ret at 1.
    change 1 with (ord x01) at 1. rewrite (eqb_ord _ _ H).
    unfold bind, os_read, print, emit, ret. cbn [negb when rfid trace].
    now rewrite <- !app_assoc.
  - drain E (R "W" ltac:(discriminate)).
    cbn [firstn skipn bytes_eqb]. change (Byte.eqb "W" "W") with true.
    cbn [andb]. unfold bind at 1. unfold os_read at 1.
    cbn [firstn skipn rfid trace].
    unfold bind at 1. unfold item at 1. cbn [nth_error]. unfold ret at 1.
    change 3 with (ord x03) at 1. rewrite (eqb_ord _ _ H).
    unfold print, emit. cbn [negb rfid trace].
    now rewrite <- !app_assoc.
  - drain E (R "R" ltac:(discriminate)).
    cbn [firstn skipn bytes_eqb]. change (Byte.eqb "R" "R") with true.
    cbn [andb]. unfold bind at 1. unfold os_read at 1.
    cbn [firstn skipn rfid trace].
    unfold bind at 1. unfold item at 1. cbn [nth_error]. unfold ret at 1.
    change 3 with (ord x03) at 1. rewrite (eqb_ord _ _ H).
    unfold print, emit. cbn [negb rfid trace].
    now rewrite <- !app_assoc.
  - unfold write_blocks_write. unfold bind at 1.
    unfold os_write at 1, emit at 1. cbn [rfid trace].
    unfold bind at 1. unfold os_read at 1. cbn [firstn skipn rfid trace].
    cbn [bytes_eqb]. change (Byte.eqb "W" "W") with true. cbn [andb].
    unfold bind at 1. unfold os_read at 1. cbn [firstn skipn rfid trace].
    unfold bind at 1. unfold item at 1. cbn [nth_error]. unfold ret at 1.
    change 3 with (ord x03) at 1. rewrite (eqb_ord _ _ H).
    unfold print, emit. cbn [negb rfid trace].
    now rewrite <- !app_assoc.
Qed.

Lemma count_mismatch_reported_witness :
  let uid_le := [x0a; x09; x08; x07; x06; x05; x02; xd0] in
  let tail := [x01; x00; x00; x00; x02; x00; x00; x00; x03; x00; x00; x00] in
  Forall eight [uid_le]
  /\ x03 <> x10
  /\ exists t,
      dump_512_bytes_read uid_le
        (World (announcements [uid_le] ++ "R" :: x03 :: tail) [])
      = Done tt (World (skipn (4 * Z.to_nat (ord x03)) tail)
                       (t ++ dumped (range 0 (ord x03)) tail)).
Proof.
  split; [repeat constructor|]. split; [discriminate|].
  pose proof (count_mismatch_reported
                x03 [[x0a; x09; x08; x07; x06; x05; x02; xd0]]
                [x01; x00; x00; x00; x02; x00; x00; x00; x03; x00; x00; x00]
                [x0a; x09; x08; x07; x06; x05; x02; xd0] []) as H.
  cbv zeta in H. destruct H as (H & _); [repeat constructor|].
  destruct H as (H & _); [discriminate|].
  eexists. exact H.
Defined.

(** C2 as worded fails in erase_blocks.py: asked for three blocks and
    answered with a count of two, it reports the count and reads none of
    the eight bytes that follow.  dump_counter.py, answered with a count of
    three, reads the two blocks it asked for and leaves the third. *)
Lemma count_mismatch_reads_no_block :
  let uid_le := [x0a; x09; x08; x07; x06; x05; x02; xd0] in
  let two := [xff; xff; xff; xff; xff; xff; xff; xff] in
  let three := [x01; x00; x00; x00; x02; x00; x00; x00; x03; x00; x00; x00] in
  run erase_blocks ("u" :: uid_le ++ "W" :: x02 :: two)
  = Done tt (World two
       [Print Waiting_for_a_chip; Write ["p"]; Read 9 ("u" :: uid_le);
        Print (UID (rev uid_le));
        Write (["W"] ++ uid_le ++ [x03; x07; x08; x09] ++ erased_data);
        Read 1 ["W"]; Read 1 [x02]; Print (Unexpected_count 2 3)])
  /\ run dump_counter ("u" :: uid_le ++ "R" :: x03 :: three)
     = Done tt (World [x03; x00; x00; x00]
          [Print Waiting_for_a_chip; Write ["p"]; Read 9 ("u" :: uid_le);
           Print (UID (rev uid_le));
           Write (["R"] ++ uid_le ++ [x02; x05; x06]);
           Read 1 ["R"]; Read 1 [x03]; Print (Unexpected_count 3 2);
           Read 4 [x01; x00; x00; x00];
           Print (Block_counter 5 1 [x01; x00; x00; x00]);
           Read 4 [x02; x00; x00; x00];
           Print (Block_counter 6 2 [x02; x00; x00; x00])]).
Proof. split; reflexivity. Qed.

(** ** C3: the echo of a write *)

Lemma firstn_skipn_app (n : nat) (x rest : bytes) :
  List.length x = n -> firstn n (x ++ rest) = x /\ skipn n (x ++ rest) = rest.
Proof.
  intros <-. split.
  - rewrite firstn_app, Nat.sub_diag, firstn_all. simpl. apply app_nil_r.
  - rewrite skipn_app, Nat.sub_diag, skipn_all. reflexivity.
Qed.

(** C3, as the code has it.  After a write the echo is compared with the
    bytes sent.  write_block.py and erase_blocks.py report a difference
    once; write_blocks.py compares block by block and reports once for each
    block that differs, up to three times (every time with the bytes of the
    first comparison).  An equal echo is not reported.  The request is
    written once in every case. *)
Theorem echo_compared
        (uids : list bytes) (tail uid_le : bytes) (t : list event) :
  Forall eight uids ->
  (forall data l, mismatch data data l = [])
  /\ (forall got wrote l, got <> wrote -> mismatch got wrote l = [Print l])
  /\ (forall data echo,
         List.length echo = 4%nat ->
         write_block_write uid_le data (World ("w" :: echo ++ tail) t)
         = Done tt (World tail
              (t ++ [Write (["w"] ++ uid_le ++ [x07] ++ data);
                     Read 1 ["w"]; Read 4 echo]
                 ++ mismatch echo data (Data_mismatch echo data))))
  /\ (forall echo,
         List.length echo = 12%nat ->
         erase_blocks_write uid_le
           (World (announcements uids ++ "W" :: x03 :: echo ++ tail) t)
         = Done tt (World tail
              (t ++ [Write (["W"] ++ uid_le ++ [x03; x07; x08; x09]
                             ++ erased_data)]
                 ++ skipped uids
                 ++ [Read 1 ["W"]; Read 1 [x03]; Read 12 echo;
                     Print (if bytes_eqb echo erased_data
                            then Erased_blocks
                            else Data_mismatch echo erased_data)])))
  /\ (forall block7 block8 block9 echo7 echo8 echo9,
         List.length echo7 = 4%nat ->
         List.length echo8 = 4%nat ->
         List.length echo9 = 4%nat ->
         write_blocks_write uid_le block7 block8 block9
           (World ("W" :: x03 :: echo7 ++ echo8 ++ echo9 ++ tail) t)
         = Done tt (World tail
              (t ++ [Write (["W"] ++ uid_le ++ [x03; x07; x08; x09]
                             ++ block8 ++ block9 ++ block7);
                     Read 1 ["W"]; Read 1 [x03];
                     Read 4 echo7; Read 4 echo8; Read 4 echo9]
                 ++ mismatch echo7 block8 (Data_mismatch echo7 block8)
                 ++ mismatch echo8 block9 (Data_mismatch echo7 block8)
                 ++ mismatch echo9 block7 (Data_mismatch echo7 block8)
                 ++ [Print (New_block 7 echo7); Print (New_block 8 echo8);
                     Print (New_block 9 echo9)]))).
Proof.
  intros E. repeat split.
  - intros data l. unfold mismatch. now rewrite bytes_eqb_refl.
  - intros got wrote l N. unfold mismatch. now rewrite bytes_eqb_neq.
  - intros data echo L.
    unfold write_block_write. unfold bind at 1.
    unfold os_write at 1, emit at 1. cbn [rfid trace].
    unfold bind at 1. unfold os_read at 1. cbn [firstn skipn rfid trace].
    cbn [bytes_eqb]. change (Byte.eqb "w" "w") with true. cbn [andb].
    unfold bind at 1. unfold os_read at 1. cbn [rfid trace].
    destruct (firstn_skipn_app 4 echo tail L) as [-> ->].
    unfold mismatch, when, print, emit, ret.
    destruct (bytes_eqb echo data); cbn [negb rfid trace];
      now rewrite <- !app_assoc.
  - intros echo L.
    drain E (first_not_u "W" (x03 :: echo ++ tail) ltac:(discriminate)).
    cbn [firstn skipn bytes_eqb]. change (Byte.eqb "W" "W") with true.
    cbn [andb]. unfold bind at 1. unfold os_read at 1.
    cbn [firstn skipn rfid trace].
    unfold bind at 1. unfold item at 1. cbn [nth_error]. unfold ret at 1.
    change (negb (ord x03 =? 3)) with false. cbv iota.
    unfold bind at 1. unfold os_read at 1. cbn [rfid trace].
    destruct (firstn_skipn_app 12 echo tail L) as [-> ->].
    unfold print, emit.
    destruct (bytes_eqb echo erased_data); cbn [negb rfid trace];
      now rewrite <- !app_assoc.
  - intros block7 block8 block9 echo7 echo8 echo9 L7 L8 L9.
    unfold write_blocks_write. unfold bind at 1.
    unfold os_write at 1, emit at 1. cbn [rfid trace].
    unfold bind at 1. unfold os_read at 1. cbn [firstn skipn rfid trace].
    cbn [bytes_eqb]. change (Byte.eqb "W" "W") with true. cbn [andb].
    unfold bind at 1. unfold os_read at 1. cbn [firstn skipn rfid trace].
    unfold bind at 1. unfold item at 1. cbn [nth_error]. unfold ret at 1.
    change (negb (ord x03 =? 3)) with false. cbv iota.
    unfold bind at 1. unfold os_read at 1. cbn [rfid trace].
    destruct (firstn_skipn_app 4 echo7 (echo8 ++ echo9 ++ tail) L7) as [-> ->].
    unfold bind at 1. unfold os_read at 1. cbn [rfid trace].
    destruct (firstn_skipn_app 4 echo8 (echo9 ++ tail) L8) as [-> ->].
    unfold bind at 1. unfold os_read at 1. cbn [rfid trace].
    destruct (firstn_skipn_app 4 echo9 tail L9) as [-> ->].
    unfold mismatch, bind, when, print, emit, ret.
    destruct (bytes_eqb echo7 block8), (bytes_eqb echo8 block9),
      (bytes_eqb echo9 block7); cbn [negb rfid trace];
      rewrite <- !app_assoc; reflexivity.
Qed.

Lemma echo_compared_witness :
  let uid_le := [x0a; x09; x08; x07; x06; x05; x02; xd0] in
  let data := [x05; x00; x00; x00] in
  let echo := [x05; x00; x00; x01] in
  Forall eight [uid_le]
  /\ List.length echo = 4%nat
  /\ write_block_write uid_le data (World ("w" :: echo ++ []) [])
     = Done tt (World []
          ([] ++ [Write (["w"] ++ uid_le ++ [x07] ++ data);
                  Read 1 ["w"]; Read 4 echo]
              ++ mismatch echo data (Data_mismatch echo data))).
Proof.
  split; [repeat constructor|]. split; [reflexivity|].
  pose proof (echo_compared
                [[x0a; x09; x08; x07; x06; x05; x02; xd0]] []
                [x0a; x09; x08; x07; x06; x05; x02; xd0] []) as H.
  destruct H as (_ & _ & H & _); [repeat constructor|].
  apply H. reflexivity.
Defined.

(** C3 as worded fails in write_blocks.py: when the echo differs from what
    was sent in two of the three blocks, the mismatch is reported twice. *)
Lemma mismatch_reported_twice :
  let uid_le := [x0a; x09; x08; x07; x06; x05; x02; xd0] in
  let b7 := [x07; x00; x00; x00] in
  let b8 := [x08; x00; x00; x00] in
  let b9 := [x09; x00; x00; x00] in
  let bad := [x00; x00; x00; x00] in
  run write_blocks ("u" :: uid_le ++ "R" :: x03 :: b7 ++ b8 ++ b9
                        ++ "W" :: x03 :: bad ++ bad ++ b7)
  = Done tt (World []
       [Print Waiting_for_a_chip; Write ["p"]; Read 9 ("u" :: uid_le);
        Print (UID (rev uid_le));
        Write (["R"] ++ uid_le ++ [x03; x07; x08; x09]);
        Read 1 ["R"]; Read 1 [x03]; Read 4 b7; Read 4 b8; Read 4 b9;
        Write (["W"] ++ uid_le ++ [x03; x07; x08; x09] ++ b8 ++ b9 ++ b7);
        Read 1 ["W"]; Read 1 [x03]; Read 4 bad; Read 4 bad; Read 4 b7;
        Print (Data_mismatch bad b8); Print (Data_mismatch bad b8);
        Print (New_block 7 bad); Print (New_block 8 bad);
        Print (New_block 9 b7)]).
Proof. reflexivity. Qed.

(** ** The poll *)

Lemma eight_inv (uid : bytes) :
  eight uid ->
  exists b0 b1 b2 b3 b4 b5 b6 b7, uid = [b0; b1; b2; b3; b4; b5; b6; b7].
Proof.
  unfold eight. intros L.
  do 8 (destruct uid as [|? uid]; [discriminate L|]).
  destruct uid; [|discriminate L]. repeat eexists.
Qed.

Lemma poll_uid_announced (body : bytes -> bytes -> io unit)
      (uid_le rest : bytes) (t : list event) :
  eight uid_le ->
  poll_uid body (World ("u" :: uid_le ++ rest) t)
  = body uid_le (rev uid_le) (World rest (t ++ polled uid_le)).
Proof.
  intros E. destruct (eight_inv _ E) as (b0 & b1 & b2 & b3 & b4 & b5 & b6 & b7 & ->).
  unfold poll_uid, polled, chip_family_warning.
  unfold bind, os_write, os_read, print, emit, item, ret.
  cbn [app firstn skipn nth_error rfid trace tl rev negb].
  change (ord "u" =? ord "u") with true. cbn [negb].
  unfold when, print, emit, ret.
  destruct (ord b7 =? 208); cbn [negb rfid trace];
    rewrite <- !app_assoc; reflexivity.
Qed.

Lemma read_system_block_announced (uid_le rest : bytes) (t : list event) :
  eight uid_le ->
  read_system_block (World ("u" :: uid_le ++ rest) t)
  = (read_system_block_single uid_le ;;; read_system_block_multiple uid_le)
      (World rest (t ++ polled uid_le ++ st_warning uid_le)).
Proof.
  intros E. unfold read_system_block. rewrite (poll_uid_announced _ _ _ _ E).
  destruct (eight_inv _ E) as (b0 & b1 & b2 & b3 & b4 & b5 & b6 & b7 & ->).
  unfold st_warning. cbn [rev app nth_error].
  unfold bind at 1. unfold item at 1. cbn [nth_error]. unfold ret at 1.
  unfold bind at 1. unfold when, print, emit, ret.
  destruct (ord b6 =? 2); cbn [negb rfid trace].
  - now rewrite app_nil_r.
  - now rewrite <- !app_assoc.
Qed.

Lemma reader_turn_announced
      (iteration : list model_entry -> list model_entry)
      (uid_le rest : bytes) (t : list event) :
  eight uid_le ->
  reader_turn iteration (World ("u" :: uid_le ++ rest) t)
  = (print_model_and_serial iteration (rev uid_le) ;;; ret true)
      (World rest
             (t ++ [Read 9 ("u" :: uid_le); Print (UID (rev uid_le))]
                ++ chip_family_warning uid_le ++ manufacturer_line uid_le)).
Proof.
  intros E.
  destruct (eight_inv _ E) as (b0 & b1 & b2 & b3 & b4 & b5 & b6 & b7 & ->).
  unfold reader_turn, chip_family_warning, manufacturer_line.
  cbn [nth_error].
  unfold bind at 1. unfold os_read at 1.
  cbn [app firstn skipn rfid trace].
  unfold bind at 1. unfold item at 1. cbn [nth_error]. unfold ret at 1.
  change (ord "u" =? ord "u") with true. cbn [negb tl rev app].
  unfold bind at 1. unfold print at 1, emit at 1. cbn [rfid trace].
  unfold bind at 1. unfold item at 1. cbn [nth_error]. unfold ret at 1.
  unfold bind at 1. unfold when, print, emit, ret.
  destruct (ord b7 =? 208); cbn [negb rfid trace];
    unfold bind at 1; unfold item at 1; cbn [nth_error]; unfold ret at 1;
    unfold bind at 1;
    destruct (lookup MANUFACTURERS (ord b6)); cbn [rfid trace];
    rewrite <- !app_assoc; reflexivity.
Qed.

(** ** C7: the UID as presented *)

(** C7.  The UID that the scripts print and test is the wire UID reversed:
    its byte [i] is wire byte [7 - i].  The chip-family check therefore
    reads wire byte 7 ([chip_family_warning]) and the manufacturer checks of
    read_system_block.py and simple_uid_reader.py read wire byte 6
    ([st_warning], [manufacturer_line]). *)
Theorem uid_presented_reversed (uid_le rest : bytes) (t : list event) :
  eight uid_le ->
  (forall i, (i < 8)%nat -> nth_error (rev uid_le) i = nth_error uid_le (7 - i))
  /\ (forall body,
         poll_uid body (World ("u" :: uid_le ++ rest) t)
         = body uid_le (rev uid_le) (World rest (t ++ polled uid_le)))
  /\ read_system_block (World ("u" :: uid_le ++ rest) t)
     = (read_system_block_single uid_le ;;; read_system_block_multiple uid_le)
         (World rest (t ++ polled uid_le ++ st_warning uid_le))
  /\ (forall iteration,
         reader_turn iteration (World ("u" :: uid_le ++ rest) t)
         = (print_model_and_serial iteration (rev uid_le) ;;; ret true)
             (World rest
                (t ++ [Read 9 ("u" :: uid_le); Print (UID (rev uid_le))]
                   ++ chip_family_warning uid_le
                   ++ manufacturer_line uid_le))).
Proof.
  intros E. repeat split.
  - intros i I. unfold eight in E.
    rewrite nth_error_rev, E.
    replace (i <? 8)%nat with true by (symmetry; apply Nat.ltb_lt; lia).
    f_equal; lia.
  - intros body. now apply poll_uid_announced.
  - now apply read_system_block_announced.
  - intros iteration. now apply reader_turn_announced.
Qed.

Lemma uid_presented_reversed_witness :
  let uid_le := [x0a; x09; x08; x07; x06; x05; x02; xd0] in
  eight uid_le
  /\ nth_error (rev uid_le) 1 = nth_error uid_le (7 - 1)
  /\ nth_error (rev uid_le) 0 = nth_error uid_le (7 - 0).
Proof.
  split; [reflexivity|].
  pose proof (uid_presented_reversed
                [x0a; x09; x08; x07; x06; x05; x02; xd0] [] [] eq_refl) as H.
  destruct H as (H & _). split; apply H; lia.
Defined.

(** ** C6: the chip-family check *)

Lemma uniform_model_loop (entries : list model_entry) (uid : bytes) :
  uniform (model_loop entries uid).
Proof.
  induction entries as [|[[bits model_id] model_str] entries IH];
    cbn [model_loop]; uniform.
Qed.

Lemma uniform_print_model_and_serial
      (iteration : list model_entry -> list model_entry) (uid : bytes) :
  uniform (print_model_and_serial iteration uid).
Proof.
  unfold print_model_and_serial.
  apply uniform_bind; [apply uniform_item|]. intros m.
  apply uniform_bind.
  - destruct (lookup MODELS m); [|apply uniform_ret].
    apply uniform_bind; [apply uniform_model_loop|].
    intros [[uid' serial_start] model_unknown]. uniform.
  - intros [uid' serial_start]. apply uniform_print.
Qed.

#[local] Hint Resolve uniform_model_loop uniform_print_model_and_serial
  : uniform.

Lemma bind_assoc {A B C} (m : io A) (k : A -> io B) (h : B -> io C)
      (w : world) :
  bind (bind m k) h w = bind m (fun a => bind (k a) h) w.
Proof. unfold bind. destruct (m w); reflexivity. Qed.

Lemma write_first {A} (frame : bytes) (k : io A) (r : bytes) :
  uniform k ->
  (os_write frame ;;; k) (World r []) = extend [Write frame] (k (World r [])).
Proof.
  intros U. unfold bind, os_write, emit. cbn [rfid trace app].
  apply (U r [Write frame]).
Qed.

Lemma poll_goes_on (body : bytes -> io unit) (uid_le rest : bytes)
      (t : list event) (frame : bytes) (k : io unit) :
  eight uid_le ->
  uniform k ->
  body uid_le = (os_write frame ;;; k) ->
  goes_on (poll_uid (fun uid_le _ => body uid_le)) (body uid_le)
          ("u" :: uid_le ++ rest) rest t (polled uid_le) frame.
Proof.
  intros E U B. split.
  - rewrite (poll_uid_announced _ _ _ _ E), B.
    apply uniform_bind; [apply uniform_os_write | intros; exact U].
  - exists (k (World rest [])). rewrite B. now apply write_first.
Qed.

(** C6.  A UID whose first presented byte [c] (wire byte 7) is not [0xD0]
    gets the warning and nothing else: every script then goes on with the
    rest of its program, run on the bytes that follow the poll reply and
    with the same UID, and the first thing this does is write the next
    request; simple_uid_reader.py goes on with the manufacturer, model and
    serial number of the same turn. *)
Theorem chip_family_check_is_soft
        (c : byte) (uid_le rest : bytes) (t : list event) :
  eight uid_le ->
  nth_error uid_le 7 = Some c ->
  c <> xd0 ->
  let stream := "u" :: uid_le ++ rest in
  let warned :=
    [Print Waiting_for_a_chip; Write ["p"]; Read 9 ("u" :: uid_le);
     Print (UID (rev uid_le)); Print (Unexpected_MSB (ord c))] in
  goes_on dump_512_bytes (dump_512_bytes_read uid_le) stream rest t warned
          (["R"] ++ uid_le
           ++ [x10; x00; x01; x02; x03; x04; x05; x06; x07; x08; x09;
               x0a; x0b; x0c; x0d; x0e; x0f])
  /\ goes_on dump_counter (dump_counter_read uid_le) stream rest t warned
             (["R"] ++ uid_le ++ [x02; x05; x06])
  /\ goes_on erase_blocks (erase_blocks_write uid_le) stream rest t warned
             (["W"] ++ uid_le ++ [x03; x07; x08; x09] ++ erased_data)
  /\ goes_on write_block (write_block_cycle uid_le) stream rest t warned
             (["r"] ++ uid_le ++ [x07])
  /\ goes_on write_blocks (write_blocks_cycle uid_le) stream rest t warned
             (["R"] ++ uid_le ++ [x03; x07; x08; x09])
  /\ goes_on read_system_block
             (read_system_block_single uid_le ;;;
              read_system_block_multiple uid_le)
             stream rest t (warned ++ st_warning uid_le)
             (["r"] ++ uid_le ++ [xff])
  /\ (forall iteration,
         reader_turn iteration (World stream t)
         = extend (t ++ [Read 9 ("u" :: uid_le); Print (UID (rev uid_le));
                         Print (Unexpected_MSB (ord c))]
                     ++ manufacturer_line uid_le)
                  ((print_model_and_serial iteration (rev uid_le) ;;; ret true)
                     (World rest []))).
Proof.
  intros E C N stream warned.
  assert (W : polled uid_le = warned).
  { unfold polled, chip_family_warning, warned. rewrite C.
    change 208 with (ord xd0). now rewrite (eqb_ord _ _ N). }
  subst stream. rewrite <- W.
  refine (conj _ (conj _ (conj _ (conj _ (conj _ (conj (conj _ _) _)))))).
  1-5: eapply poll_goes_on; [exact E | | reflexivity]; uniform.
  - rewrite (read_system_block_announced _ _ _ E).
    assert (U : uniform (read_system_block_single uid_le ;;;
                         read_system_block_multiple uid_le)).
    { unfold read_system_block_single, read_system_block_multiple. uniform. }
    apply U.
  - eexists. unfold read_system_block_single. rewrite bind_assoc.
    apply write_first. unfold read_system_block_multiple. uniform.
  - intros iteration. rewrite (reader_turn_announced _ _ _ _ E).
    assert (U : uniform (print_model_and_serial iteration (rev uid_le) ;;;
                         ret true)).
    { apply uniform_bind; [apply uniform_print_model_and_serial|].
      intros. apply uniform_ret. }
    rewrite (U rest). unfold polled in W.
    assert (chip_family_warning uid_le = [Print (Unexpected_MSB (ord c))]) as ->.
    { unfold chip_family_warning. rewrite C.
      change 208 with (ord xd0). now rewrite (eqb_ord _ _ N). }
    rewrite <- ?app_assoc. reflexivity.
Qed.

Lemma chip_family_check_is_soft_witness :
  let uid_le := [x0a; x09; x08; x07; x06; x05; x02; xc0] in
  let rest := ["R"; x02; x01; x00; x00; x00; x02; x00; x00; x00] in
  eight uid_le
  /\ nth_error uid_le 7 = Some xc0
  /\ xc0 <> xd0
  /\ goes_on dump_counter (dump_counter_read uid_le)
             ("u" :: uid_le ++ rest) rest []
             [Print Waiting_for_a_chip; Write ["p"]; Read 9 ("u" :: uid_le);
              Print (UID (rev uid_le)); Print (Unexpected_MSB (ord xc0))]
             (["R"] ++ uid_le ++ [x02; x05; x06]).
Proof.
  split; [reflexivity|]. split; [reflexivity|]. split; [discriminate|].
  pose proof (chip_family_check_is_soft
                xc0 [x0a; x09; x08; x07; x06; x05; x02; xc0]
                ["R"; x02; x01; x00; x00; x00; x02; x00; x00; x00] []
                eq_refl eq_refl) as H.
  cbv zeta in H. destruct H as (_ & H & _); [discriminate|]. exact H.
Defined.

(** ** C4: the request frames *)

Lemma final_extend {A} (t : list event) (o : outcome A) :
  trace (final (extend t o)) = t ++ trace (final o).
Proof. destruct o; reflexivity. Qed.

Lemma request_frame_well_formed (uid frame : bytes) :
  request_frame uid frame -> well_formed frame.
Proof. intros (r & V & _ & E). now exists r. Qed.

Lemma frames_app (uid : bytes) (t t' : list event) :
  frames_until_short_read uid t ->
  (no_short_read t -> frames_until_short_read uid t') ->
  frames_until_short_read uid (t ++ t').
Proof.
  induction t as [|[frame|n got|l] t IH]; cbn [app frames_until_short_read].
  - intros _ H. apply H. constructor.
  - intros [F Ft] H. split; [exact F|]. apply IH; [exact Ft|].
    intros N. apply H. now constructor.
  - intros Ft H L. apply IH; [now apply Ft|].
    intros N. apply H. now constructor.
  - intros Ft H. apply IH; [exact Ft|].
    intros N. apply H. now constructor.
Qed.

Lemma tidy_ret {A} (uid : bytes) (a : A) (Q : A -> Prop) :
  Q a -> tidy uid (ret a) Q.
Proof. intros H r. simpl. auto. Qed.

Lemma tidy_raise {A} (uid : bytes) (e : exn) (Q : A -> Prop) :
  tidy uid (raise e) Q.
Proof. intros r. simpl. auto. Qed.

Lemma tidy_print (uid : bytes) (l : line) : tidy uid (print l) (fun _ => True).
Proof. intros r. simpl. auto. Qed.

Lemma tidy_os_write (uid frame : bytes) :
  request_frame uid frame -> tidy uid (os_write frame) (fun _ => True).
Proof. intros H r. simpl. auto. Qed.

Lemma tidy_os_read (uid : bytes) (n : nat) :
  tidy uid (os_read n) (fun got => List.length got = n).
Proof.
  intros r. simpl. split; [auto|]. intros N. now inversion N.
Qed.

Lemma tidy_item (uid b : bytes) (i : nat) :
  tidy uid (item b i) (fun _ => True).
Proof.
  unfold item. destruct (nth_error b i); [now apply tidy_ret | apply tidy_raise].
Qed.


Lemma tidy_weaken {A} (uid : bytes) (m : io A) (P Q : A -> Prop) :
  tidy uid m P -> (forall a, P a -> Q a) -> tidy uid m Q.
Proof.
  intros H HQ r. destruct (H r) as [W R]. split; [exact W|].
  destruct (m (World r [])); auto.
Qed.

Lemma tidy_bind {A B} (uid : bytes) (m : io A) (k : A -> io B)
      (P : A -> Prop) (Q : B -> Prop) :
  tidy uid m P ->
  (forall a, uniform (k a)) ->
  (forall a, P a -> tidy uid (k a) Q) ->
  tidy uid (bind m k) Q.
Proof.
  intros Hm Uk Hk r. unfold bind. destruct (Hm r) as [Fm Pm].
  destruct (m (World r [])) as [a [r1 t1]|e w1|w1]; cbn [final trace] in *;
    [|auto|auto].
  rewrite (Uk a r1 t1), final_extend. split.
  - apply frames_app; [exact Fm|]. intros N. apply (Hk a (Pm N) r1).
  - destruct (k a (World r1 [])) as [b w2|e w2|w2] eqn:K; cbn [extend trace];
      [|exact I|exact I].
    intros N. apply Forall_app in N as [N1 N2].
    destruct (Hk a (Pm N1) r1) as [_ Qb]. rewrite K in Qb. auto.
Qed.

Lemma tidy_when (uid : bytes) (c : bool) (m : io unit) :
  tidy uid m (fun _ => True) -> tidy uid (when c m) (fun _ => True).
Proof. intros H. destruct c; [exact H | now apply tidy_ret]. Qed.

Lemma tidy_for_each {A} (uid : bytes) (xs : list A) (body : A -> io unit) :
  (forall x, uniform (body x)) ->
  (forall x, tidy uid (body x) (fun _ => True)) ->
  tidy uid (for_each xs body) (fun _ => True).
Proof.
  intros U H. induction xs as [|x xs IH]; cbn [for_each].
  - now apply tidy_ret.
  - apply tidy_bind with (P := fun _ => True); auto.
    intros _. now apply uniform_for_each.
Qed.

Lemma tidy_while_u (uid : bytes) (fuel : nat) (packet : bytes) :
  tidy uid (while_u fuel packet) (fun _ => True).
Proof.
  revert packet. induction fuel as [|fuel IH]; intros packet; cbn [while_u];
    destruct (bytes_eqb packet ["u"]); try now apply tidy_ret.
  - intros r. simpl. auto.
  - apply tidy_bind with (P := fun _ => True).
    + eapply tidy_weaken; [apply tidy_os_read | auto].
    + intros _. uniform. apply uniform_while_u.
    + intros _ _. apply tidy_bind with (P := fun _ => True).
      * eapply tidy_weaken; [apply tidy_os_read | auto].
      * intros. apply uniform_while_u.
      * intros. apply IH.
Qed.

Lemma tidy_while_packet_is_u (uid packet : bytes) :
  tidy uid (while_packet_is_u packet) (fun _ => True).
Proof. intros r. unfold while_packet_is_u. apply tidy_while_u. Qed.

(** Tidiness of a computation written with the combinators; the frames it
    writes are left to be shown requests. *)
Ltac tidy :=
  repeat match goal with
         | |- tidy _ (print _) _ => apply tidy_print
         | |- tidy _ (item _ _) _ => apply tidy_item
         | |- tidy _ (raise _) _ => apply tidy_raise
         | |- tidy _ (os_read _) _ => apply tidy_os_read
         | |- tidy _ (while_packet_is_u _) _ => apply tidy_while_packet_is_u
         | |- tidy _ (ret _) _ => apply tidy_ret; exact I
         | |- tidy _ (when _ _) _ => apply tidy_when
         | |- tidy _ (os_write _) _ => apply tidy_os_write
         | |- tidy _ (for_each _ _) _ =>
             apply tidy_for_each; [intros ?; uniform | intros ?]
         | |- tidy _ (bind _ _) _ =>
             eapply tidy_bind;
             [ | intros ?; uniform | intros ? ?; cbv beta in * ]
         | |- tidy _ (if ?c then _ else _) _ => destruct c
         | |- tidy _ (match ?x with _ => _ end) _ => destruct x eqn:?
         end.






(** Addresses given as a closed list: [NoDup] by computation. *)
Ltac addresses :=
  split; [discriminate|];
  repeat (constructor; [simpl; intuition discriminate|]); constructor.








Lemma uniform_reader_turn (iteration : list model_entry -> list model_entry) :
  uniform (reader_turn iteration).
Proof. unfold reader_turn. uniform. Qed.

Lemma uniform_reader_loop (iteration : list model_entry -> list model_entry)
      (fuel : nat) :
  uniform (reader_loop iteration fuel).
Proof.
  induction fuel as [|fuel IH]; cbn [reader_loop].
  - intros r t. simpl. now rewrite app_nil_r.
  - apply uniform_bind; [apply uniform_reader_turn|].
    intros [|]; [exact IH | apply uniform_ret].
Qed.





Lemma length_concat_blocks (data : list bytes) :
  Forall block data ->
  List.length (List.concat data) = (4 * List.length data)%nat.
Proof.
  induction 1 as [|b data Hb _ IH]; [reflexivity|].
  cbn [List.concat List.length]. rewrite length_app, Hb, IH. lia.
Qed.

Lemma well_formed_shape (frame : bytes) :
  well_formed frame -> frame_shape frame = true.
Proof.
  intros (r & V & E). destruct r as [|uid a|uid addrs|uid a data|uid addrs data];
    cbn [encode valid] in *.
  - injection E as <-. reflexivity.
  - injection E as <-. unfold eight in V. cbn [frame_shape].
    change (Byte.eqb "r" "p") with false. change (Byte.eqb "r" "r") with true.
    cbv iota. rewrite length_app, V. reflexivity.
  - destruct V as (V & _).
    destruct (Byte.of_nat (List.length addrs)) as [count|] eqn:C;
      [|discriminate].
    injection E as <-. unfold eight in V. cbn [frame_shape].
    change (Byte.eqb "R" "p") with false. change (Byte.eqb "R" "r") with false.
    change (Byte.eqb "R" "w") with false. change (Byte.eqb "R" "R") with true.
    cbv iota.
    rewrite nth_error_app2, V by lia. cbn [Nat.sub nth_error].
    rewrite (Byte.to_of_nat _ C), length_app, V. cbn [List.length].
    apply Nat.eqb_eq. lia.
  - destruct V as (V & B). injection E as <-. unfold eight, block in *.
    cbn [frame_shape].
    change (Byte.eqb "w" "p") with false. change (Byte.eqb "w" "r") with false.
    change (Byte.eqb "w" "w") with true. cbv iota.
    rewrite length_app, V. cbn [List.length]. rewrite B. reflexivity.
  - destruct V as (V & _ & _ & L & B).
    destruct (Byte.of_nat (List.length addrs)) as [count|] eqn:C;
      [|discriminate].
    injection E as <-. unfold eight in V. cbn [frame_shape].
    change (Byte.eqb "W" "p") with false. change (Byte.eqb "W" "r") with false.
    change (Byte.eqb "W" "w") with false. change (Byte.eqb "W" "R") with false.
    change (Byte.eqb "W" "W") with true. cbv iota.
    rewrite nth_error_app2, V by lia. cbn [Nat.sub nth_error].
    rewrite (Byte.to_of_nat _ C), length_app, V. cbn [List.length].
    rewrite length_app, (length_concat_blocks _ B), L.
    apply Nat.eqb_eq. lia.
Qed.




(** ** The loop of simple_uid_reader.py ends *)

Lemma calm_ret {A} (a : A) : calm (ret a).
Proof. intros w. reflexivity. Qed.

Lemma calm_raise {A} (e : exn) : calm (@raise A e).
Proof. intros w. reflexivity. Qed.

Lemma calm_print (l : line) : calm (print l).
Proof. intros w. reflexivity. Qed.

Lemma calm_item (b : bytes) (i : nat) : calm (item b i).
Proof.
  unfold item. destruct (nth_error b i); [apply calm_ret | apply calm_raise].
Qed.

Lemma calm_setitem (b : bytes) (i : nat) (v : Z) : calm (setitem b i v).
Proof.
  unfold setitem. destruct (byte_of_int v); [|apply calm_raise].
  destruct (store b i b0); [apply calm_ret | apply calm_raise].
Qed.

Lemma calm_bind {A B} (m : io A) (k : A -> io B) :
  calm m -> (forall a, calm (k a)) -> calm (bind m k).
Proof.
  intros Hm Hk w. unfold bind. specialize (Hm w).
  destruct (m w) as [a w1| |]; try assumption.
  specialize (Hk a w1). destruct (k a w1); congruence.
Qed.

Lemma calm_when (c : bool) (m : io unit) : calm m -> calm (when c m).
Proof. intros H. destruct c; [exact H | apply calm_ret]. Qed.

Lemma calm_model_loop (entries : list model_entry) (uid : bytes) :
  calm (model_loop entries uid).
Proof.
  induction entries as [|[[bits model_id] model_str] entries IH];
    cbn [model_loop]; [apply calm_ret|].
  apply calm_bind; [apply calm_item|]. intros model.
  destruct (_ =? model_id); [|exact IH].
  apply calm_bind; [apply calm_print|]. intros _.
  destruct (bits <? 8); [|apply calm_ret].
  apply calm_bind; [apply calm_item|]. intros u2.
  apply calm_bind; [apply calm_setitem|]. intros uid'. apply calm_ret.
Qed.

Lemma calm_print_model_and_serial
      (iteration : list model_entry -> list model_entry) (uid : bytes) :
  calm (print_model_and_serial iteration uid).
Proof.
  unfold print_model_and_serial.
  apply calm_bind; [apply calm_item|]. intros m.
  apply calm_bind.
  - destruct (lookup MODELS m); [|apply calm_ret].
    apply calm_bind; [apply calm_model_loop|].
    intros [[uid' serial_start] model_unknown].
    apply calm_bind; [|intros; apply calm_ret].
    destruct model_unknown; [|apply calm_ret].
    apply calm_bind; [apply calm_item | intros; apply calm_print].
  - intros [uid' serial_start]. apply calm_print.
Qed.

(** A turn that does not end the loop has consumed at least one byte. *)
Lemma reader_turn_progress
      (iteration : list model_entry -> list model_entry) (w : world) :
  match reader_turn iteration w with
  | Done true w' => (List.length (rfid w') < List.length (rfid w))%nat
  | Done false _ | Raised _ _ => True
  | Spin _ => False
  end.
Proof.
  unfold reader_turn. unfold bind at 1. unfold os_read at 1.
  destruct (rfid w) as [|c s] eqn:R; [exact I|].
  cbn [firstn]. unfold bind at 1. unfold item at 1.
  cbn [nth_error]. unfold ret at 1.
  match goal with
  | |- match (if ?c then _ else ?k) ?w1 with _ => _ end =>
      destruct c; [exact I|];
      assert (C : calm k); [|specialize (C w1)]
  end.
  { apply calm_bind; [apply calm_print|]. intros _.
    apply calm_bind; [apply calm_item|]. intros msb.
    apply calm_bind; [apply calm_when, calm_print|]. intros _.
    apply calm_bind; [apply calm_item|]. intros m.
    apply calm_bind.
    - destruct (lookup MANUFACTURERS m); apply calm_print.
    - intros _. apply calm_bind; [apply calm_print_model_and_serial|].
      intros _. apply calm_ret. }
  match goal with
  | |- match ?o with _ => _ end => destruct o as [[|] w'|e w'|w']
  end; try exact I; try contradiction.
  cbn [rfid] in C. rewrite C.
  pose proof (length_skipn 9 (c :: s)) as L. cbn [List.length] in *. lia.
Qed.

Lemma reader_loop_total
      (iteration : list model_entry -> list model_entry)
      (fuel : nat) (w : world) :
  (List.length (rfid w) < fuel)%nat ->
  forall w', reader_loop iteration fuel w <> Spin w'.
Proof.
  revert w. induction fuel as [|fuel IH]; intros w F w'; [lia|].
  cbn [reader_loop]. unfold bind.
  pose proof (reader_turn_progress iteration w) as P.
  destruct (reader_turn iteration w) as [[|] w1|e w1|w1];
    try discriminate; [|contradiction].
  apply IH. lia.
Qed.

Lemma simple_uid_reader_total
      (iteration : list model_entry -> list model_entry) (stream : bytes) :
  forall w', run (simple_uid_reader iteration) stream <> Spin w'.
Proof.
  intros w'. unfold run, simple_uid_reader, bind, print, emit.
  cbn [rfid trace]. apply reader_loop_total. cbn [rfid]. lia.
Qed.

(** * Further properties of the scripts *)

(** ** Every script ends *)

Lemma halts_ret {A} (a : A) : halts (ret a).
Proof. intros w w'. discriminate. Qed.

Lemma halts_raise {A} (e : exn) : halts (@raise A e).
Proof. intros w w'. discriminate. Qed.

Lemma halts_print (l : line) : halts (print l).
Proof. intros w w'. discriminate. Qed.

Lemma halts_os_write (frame : bytes) : halts (os_write frame).
Proof. intros w w'. discriminate. Qed.

Lemma halts_os_read (n : nat) : halts (os_read n).
Proof. intros w w'. discriminate. Qed.

Lemma halts_item (b : bytes) (i : nat) : halts (item b i).
Proof.
  unfold item. destruct (nth_error b i); [apply halts_ret | apply halts_raise].
Qed.

Lemma halts_bind {A B} (m : io A) (k : A -> io B) :
  halts m -> (forall a, halts (k a)) -> halts (bind m k).
Proof.
  intros Hm Hk w w'. unfold bind.
  destruct (m w) as [a w1|e w1|w1] eqn:E; [apply Hk | discriminate |].
  exfalso. exact (Hm w w1 E).
Qed.

Lemma halts_when (c : bool) (m : io unit) : halts m -> halts (when c m).
Proof. intros H. destruct c; [exact H | apply halts_ret]. Qed.

Lemma halts_for_each {A} (xs : list A) (body : A -> io unit) :
  (forall x, halts (body x)) -> halts (for_each xs body).
Proof.
  intros H. induction xs as [|x xs IH]; cbn [for_each].
  - apply halts_ret.
  - apply halts_bind; auto.
Qed.

Lemma halts_while_packet_is_u (packet : bytes) :
  halts (while_packet_is_u packet).
Proof.
  intros w w'. destruct (while_packet_is_u_total packet w) as (p & w1 & ->).
  discriminate.
Qed.

Create HintDb halts.
#[local] Hint Resolve halts_ret halts_raise halts_print halts_os_write
  halts_os_read halts_item halts_while_packet_is_u : halts.

Ltac halts :=
  repeat first
    [ progress auto with halts
    | match goal with
      | |- halts (bind _ _) => apply halts_bind; [|intros ?]
      | |- halts (when _ _) => apply halts_when
      | |- halts (for_each _ _) => apply halts_for_each; intros ?
      | |- halts (if ?c then _ else _) => destruct c
      | |- halts (match ?x with _ => _ end) => destruct x
      end ].

Lemma halts_poll_uid (body : bytes -> bytes -> io unit) :
  (forall uid_le uid, halts (body uid_le uid)) -> halts (poll_uid body).
Proof. intros H. unfold poll_uid. halts. Qed.

Lemma halts_simple_uid_reader
      (iteration : list model_entry -> list model_entry) :
  halts (simple_uid_reader iteration).
Proof.
  intros w w'. unfold simple_uid_reader, bind, print, emit.
  apply reader_loop_total. cbn [rfid]. lia.
Qed.

Lemma halts_scripts :
  halts dump_512_bytes
  /\ halts dump_counter
  /\ halts erase_blocks
  /\ halts read_system_block
  /\ halts write_block
  /\ halts write_blocks
  /\ forall iteration, halts (simple_uid_reader iteration).
Proof.
  repeat apply conj; try (intros; apply halts_simple_uid_reader);
    apply halts_poll_uid; intros uid_le uid.
  - unfold dump_512_bytes_read. halts.
  - unfold dump_counter_read. halts.
  - unfold erase_blocks_write. halts.
  - unfold read_system_block_single, read_system_block_multiple. halts.
  - unfold write_block_cycle, write_block_write. halts.
  - unfold write_blocks_cycle, write_blocks_write. halts.
Qed.

(** Every script ends on every device stream and after any history: the
    announcement loops and the [while True] of the reader stop at the
    latest when the device has nothing left. *)
Theorem scripts_halt :
  halts dump_512_bytes
  /\ halts dump_counter
  /\ halts erase_blocks
  /\ halts read_system_block
  /\ halts write_block
  /\ halts write_blocks
  /\ forall iteration, halts (simple_uid_reader iteration).
Proof. exact halts_scripts. Qed.

(** ** The only exception is IndexError *)

Lemma throws_ret {A} (a : A) (Q : A -> Prop) : Q a -> throws (ret a) Q.
Proof. intros H w. exact H. Qed.

Lemma throws_raise {A} (Q : A -> Prop) : throws (raise IndexError) Q.
Proof. intros w. reflexivity. Qed.

Lemma throws_print (l : line) : throws (print l) (fun _ => True).
Proof. intros w. exact I. Qed.

Lemma throws_os_write (frame : bytes) : throws (os_write frame) (fun _ => True).
Proof. intros w. exact I. Qed.

Lemma throws_os_read (n : nat) :
  throws (os_read n) (fun got => (List.length got <= n)%nat).
Proof. intros w. simpl. apply firstn_le_length. Qed.

Lemma throws_item (b : bytes) (i : nat) :
  throws (item b i) (fun v => 0 <= v < 256).
Proof.
  unfold item. destruct (nth_error b i) as [c|]; [|apply throws_raise].
  apply throws_ret, ord_range.
Qed.

Lemma throws_setitem (b : bytes) (i : nat) (v : Z) :
  0 <= v < 256 -> throws (setitem b i v) (fun _ => True).
Proof.
  intros R. unfold setitem.
  destruct (byte_of_int_some v R) as (c & -> & _).
  destruct (store b i c); [now apply throws_ret | apply throws_raise].
Qed.

Lemma throws_bind {A B} (m : io A) (k : A -> io B)
      (P : A -> Prop) (Q : B -> Prop) :
  throws m P -> (forall a, P a -> throws (k a) Q) -> throws (bind m k) Q.
Proof.
  intros Hm Hk w. unfold bind. specialize (Hm w).
  destruct (m w) as [a w1|e w1|w1]; [|assumption|exact I].
  apply (Hk a Hm w1).
Qed.

Lemma throws_weaken {A} (m : io A) (P Q : A -> Prop) :
  throws m P -> (forall a, P a -> Q a) -> throws m Q.
Proof.
  intros H HQ w. specialize (H w). destruct (m w); auto.
Qed.

Lemma throws_when (c : bool) (m : io unit) :
  throws m (fun _ => True) -> throws (when c m) (fun _ => True).
Proof. intros H. destruct c; [exact H | now apply throws_ret]. Qed.

Lemma throws_for_each {A} (xs : list A) (body : A -> io unit) :
  (forall x, throws (body x) (fun _ => True)) ->
  throws (for_each xs body) (fun _ => True).
Proof.
  intros H. induction xs as [|x xs IH]; cbn [for_each].
  - now apply throws_ret.
  - apply throws_bind with (P := fun _ => True); auto.
Qed.

Lemma throws_while_u (fuel : nat) (packet : bytes) :
  throws (while_u fuel packet) (fun _ => True).
Proof.
  revert packet. induction fuel as [|fuel IH]; intros packet; cbn [while_u];
    destruct (bytes_eqb packet ["u"]); try now apply throws_ret.
  - intros w. exact I.
  - eapply throws_bind; [apply throws_os_read|]. intros _ _.
    eapply throws_bind; [apply throws_os_read|]. intros packet' _. apply IH.
Qed.

Lemma throws_while_packet_is_u (packet : bytes) :
  throws (while_packet_is_u packet) (fun _ => True).
Proof. intros w. unfold while_packet_is_u. apply throws_while_u. Qed.

(** [counter - 1] always fits: [-1] as a signed word, the rest unsigned. *)
Lemma decrement_some (counter : Z) :
  0 <= counter < 2 ^ 32 -> decrement counter <> None.
Proof.
  intros R. unfold decrement, to_bytes_little.
  destruct (bytes_of_little_digits 4 (counter - 1)) as (data & -> & _).
  change (8 * Z.of_nat 4) with 32.
  destruct (counter - 1 <? 0) eqn:Neg.
  - apply Z.ltb_lt in Neg.
    replace (- 2 ^ (32 - 1) <=? counter - 1) with true
      by (symmetry; apply Z.leb_le; lia).
    replace (counter - 1 <? 2 ^ (32 - 1)) with true
      by (symmetry; apply Z.ltb_lt; lia).
    discriminate.
  - apply Z.ltb_ge in Neg.
    replace (0 <=? counter - 1) with true by (symmetry; apply Z.leb_le; lia).
    replace (counter - 1 <? 2 ^ 32) with true by (symmetry; apply Z.ltb_lt; lia).
    discriminate.
Qed.

(** The byte that line 109 stores is a byte: masking a byte leaves a
    byte, whatever the mask. *)
Lemma land_byte_range (a b : Z) :
  0 <= a < 256 -> 0 <= Z.land a b < 256.
Proof.
  intros R.
  assert (E : Z.land a b = Z.land a b mod 2 ^ 8).
  { apply Z.bits_inj'. intros i I.
    destruct (Z.lt_ge_cases i 8) as [Low|High].
    - now rewrite Z.mod_pow2_bits_low.
    - rewrite Z.mod_pow2_bits_high, Z.land_spec by lia.
      rewrite <- (Z.mod_small a (2 ^ 8)) by (change (2 ^ 8) with 256; lia).
      now rewrite Z.mod_pow2_bits_high by lia. }
  rewrite E. change 256 with (2 ^ 8). apply Z.mod_pos_bound. lia.
Qed.

Ltac throws :=
  repeat first
    [ apply throws_print | apply throws_os_write | apply throws_raise
    | apply throws_os_read | apply throws_item
    | apply throws_while_packet_is_u
    | apply throws_ret; exact I
    | match goal with
      | |- throws (bind _ _) _ =>
          eapply throws_bind; [ | intros ? ?; cbv beta in * ]
      | |- throws (when _ _) _ => apply throws_when
      | |- throws (for_each _ _) _ => apply throws_for_each; intros ?
      | |- throws (if ?c then _ else _) _ => destruct c eqn:?
      | |- throws (match ?x with _ => _ end) _ => destruct x eqn:?
      end ].

Lemma throws_model_loop (entries : list model_entry) (uid : bytes) :
  throws (model_loop entries uid) (fun _ => True).
Proof.
  induction entries as [|[[bits model_id] model_str] entries IH];
    cbn [model_loop].
  - now apply throws_ret.
  - eapply throws_bind; [apply throws_item|]. intros model R.
    destruct (_ =? model_id); [|exact IH].
    eapply throws_bind; [apply throws_print|]. intros _ _.
    destruct (bits <? 8); [|now apply throws_ret].
    eapply throws_bind; [apply throws_item|]. intros u2 R2.
    eapply throws_bind; [|intros; now apply throws_ret].
    now apply throws_setitem, land_byte_range.
Qed.

Lemma throws_print_model_and_serial
      (iteration : list model_entry -> list model_entry) (uid : bytes) :
  throws (print_model_and_serial iteration uid) (fun _ => True).
Proof.
  unfold print_model_and_serial.
  eapply throws_bind; [apply throws_item|]. intros m _.
  eapply throws_bind with (P := fun _ => True).
  - destruct (lookup MODELS m); [|now apply throws_ret].
    eapply throws_bind; [apply throws_model_loop|].
    intros [[uid' serial_start] model_unknown] _. throws.
  - intros [uid' serial_start] _. apply throws_print.
Qed.

Lemma throws_reader_turn (iteration : list model_entry -> list model_entry) :
  throws (reader_turn iteration) (fun _ => True).
Proof.
  unfold reader_turn. throws. apply throws_print_model_and_serial.
Qed.

Lemma throws_reader_loop (iteration : list model_entry -> list model_entry)
      (fuel : nat) :
  throws (reader_loop iteration fuel) (fun _ => True).
Proof.
  induction fuel as [|fuel IH]; cbn [reader_loop].
  - intros w. exact I.
  - eapply throws_bind; [apply throws_reader_turn|].
    intros [|] _; [exact IH | now apply throws_ret].
Qed.

Lemma throws_poll_uid (body : bytes -> bytes -> io unit) :
  (forall uid_le uid, throws (body uid_le uid) (fun _ => True)) ->
  throws (poll_uid body) (fun _ => True).
Proof. intros H. unfold poll_uid. throws. apply H. Qed.

Lemma throws_only (script : io unit) :
  throws script (fun _ => True) -> raises_only_IndexError script.
Proof. intros T w e w' E. specialize (T w). now rewrite E in T. Qed.

(** Whatever the device delivers, no script raises anything but
    [IndexError]: the decrement of write_block.py never overflows, and the
    byte that simple_uid_reader.py stores back into the UID is always in
    [range(256)]. *)
Theorem only_IndexError :
  raises_only_IndexError dump_512_bytes
  /\ raises_only_IndexError dump_counter
  /\ raises_only_IndexError erase_blocks
  /\ raises_only_IndexError read_system_block
  /\ raises_only_IndexError write_block
  /\ raises_only_IndexError write_blocks
  /\ forall iteration, raises_only_IndexError (simple_uid_reader iteration).
Proof.
  repeat apply conj.
  1-6: apply throws_only, throws_poll_uid; intros uid_le uid.
  - unfold dump_512_bytes_read. throws.
  - unfold dump_counter_read. throws.
  - unfold erase_blocks_write. throws.
  - unfold read_system_block_single, read_system_block_multiple. throws.
  - unfold write_block_cycle, write_block_write. throws.
    exfalso.
    match goal with
    | H : decrement _ = None |- _ => revert H
    end.
    apply decrement_some, counter_of_block_range. assumption.
  - unfold write_blocks_cycle, write_blocks_write. throws.
  - intros iteration. apply throws_only. unfold simple_uid_reader.
    eapply throws_bind; [apply throws_print|]. intros _ _ w.
    apply throws_reader_loop.
Qed.

(** ** No exception without a short read *)

Lemma guarded_ret {A} (a : A) (Q : A -> Prop) : Q a -> guarded (ret a) Q.
Proof. intros H r _. exact H. Qed.

Lemma guarded_print (l : line) : guarded (print l) (fun _ => True).
Proof. intros r _. exact I. Qed.

Lemma guarded_os_write (frame : bytes) :
  guarded (os_write frame) (fun _ => True).
Proof. intros r _. exact I. Qed.

Lemma guarded_os_read (n : nat) :
  guarded (os_read n) (fun got => List.length got = n).
Proof. intros r N. simpl in N. now inversion N. Qed.

Lemma guarded_item (b : bytes) (i : nat) :
  (i < List.length b)%nat -> guarded (item b i) (fun v => 0 <= v < 256).
Proof.
  intros L. unfold item. destruct (nth_error b i) as [c|] eqn:E.
  - apply guarded_ret, ord_range.
  - apply nth_error_None in E. lia.
Qed.

Lemma length_store (b b' : bytes) (i : nat) (c : byte) :
  store b i c = Some b' -> List.length b' = List.length b.
Proof.
  revert b' i. induction b as [|x b IH]; intros b' [|i] E; simpl in E;
    try discriminate.
  - now injection E as <-.
  - destruct (store b i c) as [b0|] eqn:S; [|discriminate].
    injection E as <-. simpl. f_equal. eapply IH, S.
Qed.

Lemma store_in_range (b : bytes) (i : nat) (c : byte) :
  (i < List.length b)%nat -> store b i c <> None.
Proof.
  intros L. destruct (nth_error b i) as [x|] eqn:E.
  - now rewrite (store_some _ _ c _ E).
  - apply nth_error_None in E. lia.
Qed.

Lemma guarded_setitem (b : bytes) (i : nat) (v : Z) :
  0 <= v < 256 ->
  (i < List.length b)%nat ->
  guarded (setitem b i v) (fun b' => List.length b' = List.length b).
Proof.
  intros R L. unfold setitem.
  destruct (byte_of_int_some v R) as (c & -> & _).
  destruct (store b i c) as [b'|] eqn:S.
  - apply guarded_ret. eapply length_store, S.
  - now apply store_in_range in S.
Qed.

Lemma no_short_read_app (t t' : list event) :
  no_short_read (t ++ t') <-> no_short_read t /\ no_short_read t'.
Proof. apply Forall_app. Qed.

Lemma guarded_bind {A B} (m : io A) (k : A -> io B)
      (P : A -> Prop) (Q : B -> Prop) :
  guarded m P ->
  (forall a, uniform (k a)) ->
  (forall a, P a -> guarded (k a) Q) ->
  guarded (bind m k) Q.
Proof.
  intros Hm Uk Hk r. unfold bind. specialize (Hm r).
  destruct (m (World r [])) as [a [r1 t1]|e w1|w1]; cbn [trace] in *;
    [|assumption|exact I].
  rewrite (Uk a r1 t1).
  destruct (k a (World r1 [])) as [b w2|e w2|w2] eqn:K; cbn [extend trace].
  - intros N. apply no_short_read_app in N as [N1 N2].
    specialize (Hk a (Hm N1) r1). rewrite K in Hk. auto.
  - intros N. apply no_short_read_app in N as [N1 N2].
    specialize (Hk a (Hm N1) r1). rewrite K in Hk. auto.
  - exact I.
Qed.

Lemma guarded_weaken {A} (m : io A) (P Q : A -> Prop) :
  guarded m P -> (forall a, P a -> Q a) -> guarded m Q.
Proof.
  intros H HQ r. specialize (H r). destruct (m (World r [])); auto.
Qed.

Lemma guarded_when (c : bool) (m : io unit) :
  guarded m (fun _ => True) -> guarded (when c m) (fun _ => True).
Proof. intros H. destruct c; [exact H | now apply guarded_ret]. Qed.

Lemma guarded_for_each {A} (xs : list A) (body : A -> io unit) :
  (forall x, uniform (body x)) ->
  (forall x, guarded (body x) (fun _ => True)) ->
  guarded (for_each xs body) (fun _ => True).
Proof.
  intros U H. induction xs as [|x xs IH]; cbn [for_each].
  - now apply guarded_ret.
  - apply guarded_bind with (P := fun _ => True); auto.
    intros _. now apply uniform_for_each.
Qed.

(** The packet that leaves the loop was read whole. *)
Lemma guarded_while_u (fuel : nat) (packet : bytes) :
  List.length packet = 1%nat ->
  guarded (while_u fuel packet) (fun packet' => List.length packet' = 1%nat).
Proof.
  revert packet. induction fuel as [|fuel IH]; intros packet L; cbn [while_u];
    destruct (bytes_eqb packet ["u"]); try now apply guarded_ret.
  - intros r. exact I.
  - eapply guarded_bind; [apply guarded_os_read | |].
    + intros _. uniform. apply uniform_while_u.
    + intros _ _. eapply guarded_bind; [apply guarded_os_read | |].
      * intros. apply uniform_while_u.
      * intros packet' L'. now apply IH.
Qed.

Lemma guarded_while_packet_is_u (packet : bytes) :
  List.length packet = 1%nat ->
  guarded (while_packet_is_u packet)
          (fun packet' => List.length packet' = 1%nat).
Proof. intros L r. unfold while_packet_is_u. now apply guarded_while_u. Qed.

Ltac guarded :=
  repeat first
    [ apply guarded_print | apply guarded_os_write | apply guarded_os_read
    | apply guarded_ret; exact I
    | match goal with
      | |- guarded (bind _ _) _ =>
          eapply guarded_bind;
          [ | intros ?; uniform | intros ? ?; cbv beta in * ]
      | |- guarded (item _ _) _ => apply guarded_item
      | |- guarded (while_packet_is_u _) _ => apply guarded_while_packet_is_u
      | |- guarded (when _ _) _ => apply guarded_when
      | |- guarded (for_each _ _) _ =>
          apply guarded_for_each; [intros ?; uniform | intros ?]
      | |- guarded (if ?c then _ else _) _ => destruct c eqn:?
      | |- guarded (match ?x with _ => _ end) _ => destruct x eqn:?
      end ].

(** Index bounds from the lengths that full reads give. *)
Ltac in_bounds :=
  cbv beta in *;
  repeat match goal with
         | H : List.length ?b = _ |- context [List.length ?b] => rewrite H
         end;
  try lia; try assumption.

Lemma length_rev_tl (packet : bytes) :
  List.length packet = 9%nat -> List.length (rev (tl packet)) = 8%nat.
Proof.
  intros L. rewrite length_rev. destruct packet; [discriminate L|].
  simpl in *. lia.
Qed.

Lemma guarded_poll_uid (body : bytes -> bytes -> io unit) :
  (forall uid_le uid, uniform (body uid_le uid)) ->
  (forall uid_le, eight uid_le ->
                  guarded (body uid_le (rev uid_le)) (fun _ => True)) ->
  guarded (poll_uid body) (fun _ => True).
Proof.
  intros U H. unfold poll_uid. guarded.
  - in_bounds.
  - rewrite length_rev_tl by in_bounds. lia.
  - apply H. unfold eight. rewrite <- length_rev. apply length_rev_tl.
    in_bounds.
Qed.

Lemma guarded_dump_counter_read (uid_le : bytes) :
  guarded (dump_counter_read uid_le) (fun _ => True).
Proof. unfold dump_counter_read. guarded; in_bounds. Qed.

Lemma guarded_dump_512_bytes_read (uid_le : bytes) :
  guarded (dump_512_bytes_read uid_le) (fun _ => True).
Proof. unfold dump_512_bytes_read. guarded; in_bounds. Qed.

Lemma guarded_erase_blocks_write (uid_le : bytes) :
  guarded (erase_blocks_write uid_le) (fun _ => True).
Proof. unfold erase_blocks_write. guarded; in_bounds. Qed.

Lemma guarded_read_system_block_body (uid_le uid_be : bytes) :
  List.length uid_be = 8%nat ->
  guarded (m <- item uid_be 1 ;;
           when (negb (m =? 2)) (print Not_STMicroelectronics) ;;;
           read_system_block_single uid_le ;;;
           read_system_block_multiple uid_le) (fun _ => True).
Proof.
  intros L. unfold read_system_block_single, read_system_block_multiple.
  guarded; in_bounds.
Qed.

Lemma guarded_write_block_cycle (uid_le : bytes) :
  guarded (write_block_cycle uid_le) (fun _ => True).
Proof.
  unfold write_block_cycle, write_block_write. guarded; in_bounds.
  exfalso.
  match goal with
  | H : decrement _ = None |- _ => revert H
  end.
  apply decrement_some, counter_of_block_range. in_bounds.
Qed.

Lemma guarded_write_blocks_cycle (uid_le : bytes) :
  guarded (write_blocks_cycle uid_le) (fun _ => True).
Proof. unfold write_blocks_cycle, write_blocks_write. guarded; in_bounds. Qed.

Lemma guarded_model_loop (entries : list model_entry) (uid : bytes) :
  (2 < List.length uid)%nat ->
  guarded (model_loop entries uid)
          (fun st => List.length (fst (fst st)) = List.length uid).
Proof.
  intros L.
  induction entries as [|[[bits model_id] model_str] entries IH];
    cbn [model_loop].
  - now apply guarded_ret.
  - eapply guarded_bind; [now apply guarded_item | |].
    + intros model. destruct (_ =? model_id); [uniform|].
      apply uniform_model_loop.
    + intros model R. destruct (_ =? model_id); [|exact IH].
      eapply guarded_bind; [apply guarded_print | intros ?; uniform |].
      intros _ _. destruct (bits <? 8); [|now apply guarded_ret].
      eapply guarded_bind; [now apply guarded_item | intros ?; uniform |].
      intros u2 R2.
      eapply guarded_bind;
        [ apply guarded_setitem; [now apply land_byte_range | exact L]
        | intros ?; uniform | ].
      intros uid' L'. now apply guarded_ret.
Qed.

Lemma guarded_print_model_and_serial
      (iteration : list model_entry -> list model_entry) (uid : bytes) :
  List.length uid = 8%nat ->
  guarded (print_model_and_serial iteration uid) (fun _ => True).
Proof.
  intros L. unfold print_model_and_serial.
  eapply guarded_bind; [apply guarded_item; lia | intros ?; uniform |].
  intros m _.
  eapply guarded_bind with (P := fun _ => True).
  - destruct (lookup MODELS m); [|now apply guarded_ret].
    eapply guarded_bind; [apply guarded_model_loop; lia | |].
    + intros [[uid' serial_start] model_unknown]. uniform.
    + intros [[uid' serial_start] model_unknown] L'. cbn [fst] in L'.
      guarded. lia.
  - intros [uid' serial_start]. apply uniform_print.
  - intros [uid' serial_start] _. apply guarded_print.
Qed.

Lemma guarded_reader_turn (iteration : list model_entry -> list model_entry) :
  guarded (reader_turn iteration) (fun _ => True).
Proof.
  unfold reader_turn. guarded.
  - in_bounds.
  - rewrite length_rev_tl by in_bounds. lia.
  - rewrite length_rev_tl by in_bounds. lia.
  - apply guarded_print_model_and_serial, length_rev_tl. in_bounds.
Qed.

Lemma guarded_reader_loop (iteration : list model_entry -> list model_entry)
      (fuel : nat) :
  guarded (reader_loop iteration fuel) (fun _ => True).
Proof.
  induction fuel as [|fuel IH]; cbn [reader_loop].
  - intros r. exact I.
  - apply guarded_bind with (P := fun _ => True);
      [apply guarded_reader_turn | |].
    + intros [|]; [apply uniform_reader_loop | apply uniform_ret].
    + intros [|] _; [exact IH | now apply guarded_ret].
Qed.

Lemma guarded_simple_uid_reader
      (iteration : list model_entry -> list model_entry) :
  guarded (simple_uid_reader iteration) (fun _ => True).
Proof.
  unfold simple_uid_reader.
  apply guarded_bind with (P := fun _ => True); [apply guarded_print | |].
  - intros _ r t. apply uniform_reader_loop.
  - intros _ _ r. apply guarded_reader_loop.
Qed.

Lemma guarded_completes (script : io unit) :
  halts script ->
  guarded script (fun _ => True) ->
  completes_on_full_reads script.
Proof.
  intros Hh Hg stream N. unfold run in *.
  specialize (Hg stream). specialize (Hh (World stream [])).
  destruct (script (World stream [])) as [[] w|e w|w]; cbn [final] in N.
  - now exists w.
  - contradiction.
  - now destruct (Hh w).
Qed.

(** On a device that keeps its read contract no script raises: every index
    taken ([packet[0]], [count[0]], [uid[0]], [uid[1]], [uid[2]]) is into
    bytes that a full read delivered.  The request scripts then run to
    their end and the reader stops at its [break]. *)
Theorem full_reads_no_exception :
  completes_on_full_reads dump_512_bytes
  /\ completes_on_full_reads dump_counter
  /\ completes_on_full_reads erase_blocks
  /\ completes_on_full_reads read_system_block
  /\ completes_on_full_reads write_block
  /\ completes_on_full_reads write_blocks
  /\ forall iteration, completes_on_full_reads (simple_uid_reader iteration).
Proof.
  pose proof halts_scripts as (H1 & H2 & H3 & H4 & H5 & H6 & H7).
  repeat apply conj.
  - apply guarded_completes; [exact H1|]. apply guarded_poll_uid.
    + intros. unfold dump_512_bytes_read. uniform.
    + intros. apply guarded_dump_512_bytes_read.
  - apply guarded_completes; [exact H2|]. apply guarded_poll_uid.
    + intros. unfold dump_counter_read. uniform.
    + intros. apply guarded_dump_counter_read.
  - apply guarded_completes; [exact H3|]. apply guarded_poll_uid.
    + intros. unfold erase_blocks_write. uniform.
    + intros. apply guarded_erase_blocks_write.
  - apply guarded_completes; [exact H4|]. apply guarded_poll_uid.
    + intros. unfold read_system_block_single, read_system_block_multiple.
      uniform.
    + intros uid_le E. apply guarded_read_system_block_body.
      now rewrite length_rev.
  - apply guarded_completes; [exact H5|]. apply guarded_poll_uid.
    + intros. unfold write_block_cycle. uniform.
    + intros. apply guarded_write_block_cycle.
  - apply guarded_completes; [exact H6|]. apply guarded_poll_uid.
    + intros. unfold write_blocks_cycle. uniform.
    + intros. apply guarded_write_blocks_cycle.
  - intros iteration. apply guarded_completes; [apply H7|].
    apply guarded_simple_uid_reader.
Qed.

Lemma only_IndexError_witness :
  run dump_counter ["u"] = Raised IndexError
                             (World [] [Print Waiting_for_a_chip; Write ["p"];
                                        Read 9 ["u"]; Print (UID [])])
  /\ IndexError = IndexError.
Proof.
  split; [reflexivity|].
  exact (proj1 (proj2 only_IndexError) (World ["u"] []) IndexError _ eq_refl).
Defined.

Lemma full_reads_no_exception_witness :
  let uid_le := [x0a; x09; x08; x07; x06; x05; x02; xd0] in
  let stream := "u" :: uid_le ++ ["r"; x00; x00; x00; x00;
                                  "w"; xff; xff; xff; xff] in
  no_short_read (trace (final (run write_block stream)))
  /\ exists w, run write_block stream = Done tt w.
Proof.
  assert (N : no_short_read
                (trace (final (run write_block
                   ("u" :: [x0a; x09; x08; x07; x06; x05; x02; xd0]
                        ++ ["r"; x00; x00; x00; x00;
                            "w"; xff; xff; xff; xff])))))
    by (vm_compute; repeat constructor).
  split; [exact N|].
  exact (proj1 (proj2 (proj2 (proj2 (proj2 full_reads_no_exception)))) _ N).
Defined.

(** ** The end of the stream *)

(** When the device has nothing after the announcements, the transactions
    that have the loop leave it with an empty packet, take the branch of the
    unexpected header and raise [IndexError] on [packet[0]], before anything
    is printed.  The writes of write_block.py and write_blocks.py print the
    packet itself and so report the empty packet without raising. *)
Theorem end_of_stream
        (uids : list bytes) (uid_le : bytes) (t : list event) :
  Forall eight uids ->
  let fails frame :=
    Raised IndexError
           (World [] (t ++ [Write frame] ++ skipped uids ++ [Read 1 []])) in
  dump_512_bytes_read uid_le (World (announcements uids) t)
  = fails (["R"] ++ uid_le
           ++ [x10; x00; x01; x02; x03; x04; x05; x06; x07; x08; x09;
               x0a; x0b; x0c; x0d; x0e; x0f])
  /\ dump_counter_read uid_le (World (announcements uids) t)
     = fails (["R"] ++ uid_le ++ [x02; x05; x06])
  /\ erase_blocks_write uid_le (World (announcements uids) t)
     = fails (["W"] ++ uid_le ++ [x03; x07; x08; x09] ++ erased_data)
  /\ read_system_block_single uid_le (World (announcements uids) t)
     = fails (["r"] ++ uid_le ++ [xff])
  /\ read_system_block_multiple uid_le (World (announcements uids) t)
     = fails (["R"] ++ uid_le ++ [x01; xff])
  /\ write_block_cycle uid_le (World (announcements uids) t)
     = fails (["r"] ++ uid_le ++ [x07])
  /\ write_blocks_cycle uid_le (World (announcements uids) t)
     = fails (["R"] ++ uid_le ++ [x03; x07; x08; x09])
  /\ (forall data,
         write_block_write uid_le data (World [] t)
         = Done tt (World []
                      (t ++ [Write (["w"] ++ uid_le ++ [x07] ++ data);
                             Read 1 []; Print (Unexpected_packet [])])))
  /\ (forall block7 block8 block9,
         write_blocks_write uid_le block7 block8 block9 (World [] t)
         = Done tt (World []
                      (t ++ [Write (["W"] ++ uid_le ++ [x03; x07; x08; x09]
                                     ++ block8 ++ block9 ++ block7);
                             Read 1 []; Print (Unexpected_packet [])]))).
Proof.
  intros E fails. subst fails.
  assert (R : firstn 1 (@nil byte) <> ["u"]) by discriminate.
  rewrite <- (app_nil_r (announcements uids)).
  repeat apply conj.
  1-7: drain E R; cbn [firstn skipn bytes_eqb];
       unfold bind, item, raise; cbn [nth_error]; reflexivity.
  - intros data. unfold write_block_write, bind, os_write, os_read, print, emit.
    cbn [firstn skipn bytes_eqb rfid trace]. now rewrite <- !app_assoc.
  - intros block7 block8 block9.
    unfold write_blocks_write, bind, os_write, os_read, print, emit.
    cbn [firstn skipn bytes_eqb rfid trace]. now rewrite <- !app_assoc.
Qed.

Lemma end_of_stream_witness :
  let uid_le := [x0a; x09; x08; x07; x06; x05; x02; xd0] in
  Forall eight [uid_le]
  /\ dump_counter_read uid_le (World (announcements [uid_le]) [])
     = Raised IndexError
         (World [] ([] ++ [Write (["R"] ++ uid_le ++ [x02; x05; x06])]
                       ++ skipped [uid_le] ++ [Read 1 []])).
Proof.
  split; [repeat constructor|].
  pose proof (end_of_stream [[x0a; x09; x08; x07; x06; x05; x02; xd0]]
                [x0a; x09; x08; x07; x06; x05; x02; xd0] []) as H.
  cbv zeta in H. destruct H as (_ & H & _); [repeat constructor | exact H].
Defined.

(** ** read_system_block.py after a first reply that is not one *)

(** read_system_block.py does not stop at an unexpected header in its
    first transaction: it reports it and sends the second request all the
    same, whose reply it looks for in the bytes that follow the unexpected
    one. *)
Theorem read_system_block_goes_on
        (c : byte) (uids : list bytes) (uid_le tail : bytes) (t : list event) :
  eight uid_le ->
  Forall eight uids ->
  c <> "u" ->
  c <> "r" ->
  read_system_block
    (World ("u" :: uid_le ++ announcements uids ++ c :: tail) t)
  = extend (t ++ polled uid_le ++ st_warning uid_le
              ++ [Write (["r"] ++ uid_le ++ [xff])] ++ skipped uids
              ++ [Read 1 [c]; Print (Unexpected_packet_header (ord c))])
           (read_system_block_multiple uid_le (World tail [])).
Proof.
  intros E Es U R.
  rewrite (read_system_block_announced _ _ _ E).
  unfold bind at 1.
  replace (read_system_block_single uid_le
             (World (announcements uids ++ c :: tail)
                    (t ++ polled uid_le ++ st_warning uid_le)))
    with (Done tt
            (World tail
               ((t ++ polled uid_le ++ st_warning uid_le)
                  ++ [Write (["r"] ++ uid_le ++ [xff])] ++ skipped uids
                  ++ [Read 1 [c]; Print (Unexpected_packet_header (ord c))]))).
  - assert (M : uniform (read_system_block_multiple uid_le))
      by (unfold read_system_block_multiple; uniform).
    rewrite (M tail). now rewrite <- !app_assoc.
  - symmetry. drain Es (first_not_u c tail U).
    cbn [firstn skipn bytes_eqb]. rewrite (byte_eqb_neq _ _ R).
    cbn [andb]. unfold bind, item, print, emit, ret.
    cbn [nth_error rfid trace]. now rewrite <- !app_assoc.
Qed.

Lemma read_system_block_goes_on_witness :
  let uid_le := [x0a; x09; x08; x07; x06; x05; x02; xd0] in
  let tail := ["R"; x01; x04; x03; x02; x01] in
  eight uid_le /\ Forall eight [uid_le] /\ "x" <> "u" /\ "x" <> "r"
  /\ read_system_block
       (World ("u" :: uid_le ++ announcements [uid_le] ++ "x" :: tail) [])
     = extend ([] ++ polled uid_le ++ st_warning uid_le
                 ++ [Write (["r"] ++ uid_le ++ [xff])] ++ skipped [uid_le]
                 ++ [Read 1 ["x"]; Print (Unexpected_packet_header (ord "x"))])
              (read_system_block_multiple uid_le (World tail [])).
Proof.
  split; [reflexivity|]. split; [repeat constructor|].
  split; [discriminate|]. split; [discriminate|].
  apply (read_system_block_goes_on
           "x" [[x0a; x09; x08; x07; x06; x05; x02; xd0]]
           [x0a; x09; x08; x07; x06; x05; x02; xd0]
           ["R"; x01; x04; x03; x02; x01] []);
    [reflexivity | repeat constructor | discriminate | discriminate].
Defined.

(** ** dump_512_bytes.py: the blocks and their numbers *)

Lemma dumped_blocks (xs : list Z) (blocks : list bytes) (tail : bytes) :
  Forall block blocks ->
  List.length xs = List.length blocks ->
  dumped xs (List.concat blocks ++ tail) = numbered (combine xs blocks)
  /\ skipn (4 * List.length xs) (List.concat blocks ++ tail) = tail.
Proof.
  intros B. revert xs.
  induction B as [|b blocks Hb B IH]; intros [|x xs] L; try discriminate L.
  - split; reflexivity.
  - injection L as L. destruct (IH xs L) as [D Sk].
    cbn [List.concat dumped combine numbered flat_map List.length].
    rewrite <- app_assoc.
    destruct (firstn_skipn_app 4 b (List.concat blocks ++ tail) Hb) as [F K].
    rewrite F, K, D. split; [reflexivity|].
    replace (4 * S (List.length xs))%nat with (4 * List.length xs + 4)%nat
      by lia.
    now rewrite <- skipn_skipn, K.
Qed.

(** A reply of [c] blocks that arrive whole is printed block by block, the
    [i]-th block of the reply (from 0) under the number [i] and with its
    bytes reversed, whether or not [c] is the 16 that was asked for; what
    follows the blocks stays on the device. *)
Theorem dump_512_bytes_numbers_blocks
        (c : byte) (blocks : list bytes) (uids : list bytes)
        (uid_le tail : bytes) (t : list event) :
  Forall eight uids ->
  Forall block blocks ->
  ord c = Z.of_nat (List.length blocks) ->
  dump_512_bytes_read uid_le
    (World (announcements uids ++ "R" :: c :: List.concat blocks ++ tail) t)
  = Done tt
      (World tail
         (t ++ [Write (["R"] ++ uid_le
                       ++ [x10; x00; x01; x02; x03; x04; x05; x06; x07; x08;
                           x09; x0a; x0b; x0c; x0d; x0e; x0f])]
            ++ skipped uids ++ [Read 1 ["R"]; Read 1 [c]]
            ++ count_warning c 16
            ++ numbered (combine (range 0 (ord c)) blocks))).
Proof.
  intros E B C.
  drain E (first_not_u "R" (c :: List.concat blocks ++ tail)
                       ltac:(discriminate)).
  cbn [firstn skipn bytes_eqb]. change (Byte.eqb "R" "R") with true.
  cbn [andb]. unfold bind at 1. unfold os_read at 1.
  cbn [firstn skipn rfid trace].
  unfold bind at 1. unfold item at 1. cbn [nth_error]. unfold ret at 1.
  assert (L : List.length (range 0 (ord c)) = List.length blocks).
  { rewrite length_range, C. lia. }
  destruct (dumped_blocks (range 0 (ord c)) blocks tail B L) as [D S].
  unfold bind at 1. unfold count_warning, when, print, emit, ret.
  destruct (ord c =? 16); cbn [negb rfid trace];
    rewrite for_each_dump, D, S, <- !app_assoc; reflexivity.
Qed.

Lemma dump_512_bytes_numbers_blocks_witness :
  let uid_le := [x0a; x09; x08; x07; x06; x05; x02; xd0] in
  let blocks := [[x01; x02; x03; x04]; [x05; x06; x07; x08]] in
  Forall eight [uid_le] /\ Forall block blocks
  /\ ord x02 = Z.of_nat (List.length blocks)
  /\ dump_512_bytes_read uid_le
       (World (announcements [uid_le] ++ "R" :: x02 :: List.concat blocks ++ [])
              [])
     = Done tt
         (World []
            ([] ++ [Write (["R"] ++ uid_le
                           ++ [x10; x00; x01; x02; x03; x04; x05; x06; x07;
                               x08; x09; x0a; x0b; x0c; x0d; x0e; x0f])]
                ++ skipped [uid_le] ++ [Read 1 ["R"]; Read 1 [x02]]
                ++ count_warning x02 16
                ++ numbered (combine (range 0 (ord x02)) blocks))).
Proof.
  split; [repeat constructor|]. split; [repeat constructor|].
  split; [reflexivity|].
  apply (dump_512_bytes_numbers_blocks
           x02 [[x01; x02; x03; x04]; [x05; x06; x07; x08]]
           [[x0a; x09; x08; x07; x06; x05; x02; xd0]]
           [x0a; x09; x08; x07; x06; x05; x02; xd0] [] []);
    [repeat constructor | repeat constructor | reflexivity].
Defined.

(** ** Blocks and integers *)

Lemma byte_of_int_ord (c : byte) : byte_of_int (ord c) = Some c.
Proof.
  destruct (byte_of_int_some (ord c) (ord_range c)) as (d & E & O).
  rewrite E. f_equal. now apply ord_inj.
Qed.

Lemma little_digits_from_bytes (data : bytes) :
  bytes_of_ints (little_digits (List.length data) (from_bytes_little data))
  = Some data.
Proof.
  induction data as [|c data IH]; [reflexivity|].
  cbn [List.length little_digits from_bytes_little bytes_of_ints].
  pose proof (ord_range c) as R.
  replace ((ord c + 256 * from_bytes_little data) mod 256) with (ord c).
  - replace ((ord c + 256 * from_bytes_little data) / 256)
      with (from_bytes_little data).
    + now rewrite byte_of_int_ord, IH.
    + rewrite Z.mul_comm, Z.div_add, Z.div_small by lia. reflexivity.
  - rewrite Z.mul_comm, Z.mod_add, Z.mod_small by lia. reflexivity.
Qed.

Lemma pow_256 (n : nat) : 2 ^ (8 * Z.of_nat n) = 256 ^ Z.of_nat n.
Proof. rewrite Z.pow_mul_r by lia. reflexivity. Qed.

(** [int.from_bytes(data, "little").to_bytes(len(data), "little")] is
    [data] again, and [int.from_bytes(n.to_bytes(length, "little", ...),
    "little")] is [n] modulo [256 ** length]: a block and the counter read
    from it determine each other. *)
Theorem block_counter_round_trip :
  (forall data,
      to_bytes_little (from_bytes_little data) (List.length data) false
      = Some data)
  /\ (forall n length signed data,
         to_bytes_little n length signed = Some data ->
         List.length data = length
         /\ from_bytes_little data = n mod 256 ^ Z.of_nat length).
Proof.
  split.
  - intros data. unfold to_bytes_little.
    pose proof (from_bytes_little_range data) as R.
    rewrite pow_256.
    replace (0 <=? from_bytes_little data) with true
      by (symmetry; apply Z.leb_le; lia).
    replace (from_bytes_little data <? 256 ^ Z.of_nat (List.length data))
      with true by (symmetry; apply Z.ltb_lt; lia).
    apply little_digits_from_bytes.
  - intros n length signed data. unfold to_bytes_little.
    destruct (bytes_of_little_digits length n) as (d & Hd & Hl & Hv).
    rewrite Hd. destruct (if signed then _ else _); [|discriminate].
    intros E. injection E as <-. auto.
Qed.

Lemma block_counter_round_trip_witness :
  to_bytes_little 5 4 false = Some [x05; x00; x00; x00]
  /\ List.length [x05; x00; x00; x00] = 4%nat
  /\ from_bytes_little [x05; x00; x00; x00] = 5 mod 256 ^ Z.of_nat 4.
Proof.
  split; [reflexivity|].
  exact (proj2 block_counter_round_trip 5 4%nat false [x05; x00; x00; x00]
               eq_refl).
Defined.

(** ** write_block.py: the whole cycle *)

Lemma decrement_value (counter : Z) (data : bytes) :
  decrement counter = Some data ->
  List.length data = 4%nat
  /\ from_bytes_little data = (counter - 1) mod 2 ^ 32.
Proof.
  unfold decrement, to_bytes_little.
  destruct (bytes_of_little_digits 4 (counter - 1)) as (d & Hd & Hl & Hv).
  rewrite Hd. destruct (if counter - 1 <? 0 then _ else _); [|discriminate].
  intros E. injection E as <-. auto.
Qed.

(** With a block [old] read whole and an echo that arrives whole,
    write_block.py writes back one block [new] that decodes to the counter
    of [old] less one modulo [2 ** 32] (so a counter of 0 becomes
    [ff ff ff ff]), compares the echo with [new], and ends; it reads nothing
    after the echo. *)
Theorem write_block_decrements
        (uids : list bytes) (uid_le old echo tail : bytes) (t : list event) :
  Forall eight uids ->
  block old ->
  block echo ->
  exists new,
    block new
    /\ from_bytes_little new = (from_bytes_little old - 1) mod 2 ^ 32
    /\ write_block_cycle uid_le
         (World (announcements uids ++ "r" :: old ++ "w" :: echo ++ tail) t)
       = Done tt
           (World tail
              (t ++ [Write (["r"] ++ uid_le ++ [x07])] ++ skipped uids
                 ++ [Read 1 ["r"]; Read 4 old;
                     Print (Counter_decrementing (from_bytes_little old));
                     Write (["w"] ++ uid_le ++ [x07] ++ new);
                     Read 1 ["w"]; Read 4 echo]
                 ++ mismatch echo new (Data_mismatch echo new))).
Proof.
  intros E Bo Be.
  destruct (decrement (from_bytes_little old)) as [new|] eqn:D.
  2:{ exfalso. revert D. apply decrement_some, counter_of_block_range.
      unfold block in Bo. lia. }
  destruct (decrement_value _ _ D) as [Ln Vn].
  exists new. split; [exact Ln|]. split; [exact Vn|].
  drain E (first_not_u "r" (old ++ "w" :: echo ++ tail) ltac:(discriminate)).
  cbn [firstn skipn bytes_eqb]. change (Byte.eqb "r" "r") with true.
  cbn [andb]. unfold bind at 1. unfold os_read at 1. cbn [rfid trace].
  destruct (firstn_skipn_app 4 old ("w" :: echo ++ tail) Bo) as [-> ->].
  cbv zeta. unfold bind at 1. unfold print at 1, emit at 1.
  cbn [rfid trace]. rewrite D.
  unfold write_block_write. unfold bind at 1.
  unfold os_write at 1, emit at 1. cbn [rfid trace].
  unfold bind at 1. unfold os_read at 1. cbn [firstn skipn rfid trace].
  cbn [bytes_eqb]. change (Byte.eqb "w" "w") with true. cbn [andb].
  unfold bind at 1. unfold os_read at 1. cbn [rfid trace].
  destruct (firstn_skipn_app 4 echo tail Be) as [-> ->].
  unfold mismatch, when, print, emit, ret.
  destruct (bytes_eqb echo new); cbn [negb rfid trace];
    rewrite <- !app_assoc; reflexivity.
Qed.

Lemma write_block_decrements_witness :
  let uid_le := [x0a; x09; x08; x07; x06; x05; x02; xd0] in
  let old := [x00; x00; x00; x00] in
  let echo := [xff; xff; xff; xff] in
  Forall eight [uid_le] /\ block old /\ block echo
  /\ exists new,
      block new
      /\ from_bytes_little new = (from_bytes_little old - 1) mod 2 ^ 32
      /\ write_block_cycle uid_le
           (World (announcements [uid_le] ++ "r" :: old ++ "w" :: echo ++ [])
                  [])
         = Done tt
             (World []
                ([] ++ [Write (["r"] ++ uid_le ++ [x07])] ++ skipped [uid_le]
                    ++ [Read 1 ["r"]; Read 4 old;
                        Print (Counter_decrementing (from_bytes_little old));
                        Write (["w"] ++ uid_le ++ [x07] ++ new);
                        Read 1 ["w"]; Read 4 echo]
                    ++ mismatch echo new (Data_mismatch echo new))).
Proof.
  split; [repeat constructor|]. split; [reflexivity|]. split; [reflexivity|].
  apply (write_block_decrements
           [[x0a; x09; x08; x07; x06; x05; x02; xd0]]
           [x0a; x09; x08; x07; x06; x05; x02; xd0]
           [x00; x00; x00; x00] [xff; xff; xff; xff] [] []);
    [repeat constructor | reflexivity | reflexivity].
Defined.

(** ** simple_uid_reader.py: known and unknown models *)

(** No element of the set matches a byte exactly when its top six bits are
    none of the 6-bit identifiers; checked on each of the 256 bytes. *)
Lemma no_match_six_bits (b : byte) (entries : list model_entry) :
  lookup MODELS 2 = Some entries ->
  existsb (entry_matches (ord b)) entries
  = existsb (Z.eqb (Z.shiftr (ord b) 2)) six_bit_ids.
Proof.
  intros E. injection E as <-. destruct b; vm_compute; reflexivity.
Qed.

Lemma find_none_perm {A} (p : A -> bool) (l l' : list A) :
  Permutation l l' -> existsb p l = false -> find p l' = None.
Proof.
  intros P N. destruct (find p l') as [x|] eqn:F; [|reflexivity].
  apply find_some in F as [I Px].
  assert (existsb p l = true); [|congruence].
  apply existsb_exists. exists x. split; [|exact Px].
  apply Permutation_in with (l := l'); [now apply Permutation_sym | exact I].
Qed.

Lemma find_some_perm {A} (p : A -> bool) (l l' : list A) :
  Permutation l l' -> existsb p l = true ->
  exists x, find p l' = Some x /\ In x l.
Proof.
  intros P N. apply existsb_exists in N as (y & Iy & Py).
  destruct (find p l') as [x|] eqn:F.
  - exists x. split; [reflexivity|]. apply find_some in F as [I _].
    apply Permutation_in with (l := l'); [now apply Permutation_sym | exact I].
  - rewrite (find_none _ _ F y) in Py; [discriminate|].
    now apply Permutation_in with (l := l).
Qed.

(** For a chip of manufacturer [0x02], whatever the order in which the set
    is visited: when the top six bits of the model byte are none of the
    6-bit identifiers the reader prints the model as unknown, with the byte,
    and the serial number from index 2 with that byte untouched; otherwise
    it prints the name of an element of the set.  The 8-bit entries make no
    further byte known. *)
Theorem model_unknown_by_six_bits
        (iteration : list model_entry -> list model_entry)
        (uid : bytes) (u2 : byte) (w : world) :
  (forall s, Permutation (iteration s) s) ->
  nth_error uid 1 = Some x02 ->
  nth_error uid 2 = Some u2 ->
  (~ In (Z.shiftr (ord u2) 2) six_bit_ids ->
   print_model_and_serial iteration uid w
   = Done tt (World (rfid w)
                (trace w ++ [Print (Model_unknown (ord u2));
                             Print (Serial_number (skipn 2 uid))])))
  /\ (In (Z.shiftr (ord u2) 2) six_bit_ids ->
      exists entries bits model_id model_str serial,
        lookup MODELS 2 = Some entries
        /\ In (bits, model_id, model_str) entries
        /\ print_model_and_serial iteration uid w
           = Done tt (World (rfid w)
                        (trace w ++ [Print (Model model_str);
                                     Print (Serial_number serial)]))).
Proof.
  intros P M U.
  assert (E : exists entries, lookup MODELS 2 = Some entries)
    by (eexists; reflexivity).
  destruct E as (entries & E).
  pose proof (no_match_six_bits u2 entries E) as X.
  unfold print_model_and_serial, bind.
  rewrite (item_some _ _ _ _ M). change (ord x02) with 2. rewrite E.
  rewrite (model_loop_find _ _ _ _ U). split.
  - intros N.
    assert (existsb (entry_matches (ord u2)) entries = false) as F.
    { rewrite X. destruct (existsb _ six_bit_ids) eqn:B; [|reflexivity].
      apply existsb_exists in B as (x & Ix & Ex).
      apply Z.eqb_eq in Ex. subst x. contradiction. }
    rewrite (find_none_perm _ entries _ (Permutation_sym (P entries)) F).
    rewrite (item_some _ _ _ _ U). unfold ret, print, emit.
    cbn [rfid trace]. now rewrite <- app_assoc.
  - intros I.
    assert (existsb (entry_matches (ord u2)) entries = true) as F.
    { rewrite X. apply existsb_exists. exists (Z.shiftr (ord u2) 2).
      split; [exact I | apply Z.eqb_refl]. }
    destruct (find_some_perm _ entries _ (Permutation_sym (P entries)) F)
      as ([[bits model_id] model_str] & -> & Ie).
    exists entries, bits, model_id, model_str. cbv zeta.
    destruct (bits <? 8) eqn:B.
    + apply Z.ltb_lt in B.
      destruct (byte_of_int_some (ord u2 mod 2 ^ (8 - bits))) as (c & -> & _).
      { pose proof (ord_range u2) as R.
        assert (0 < 2 ^ (8 - bits)) by (apply Z.pow_pos_nonneg; lia).
        pose proof (Z.mod_pos_bound (ord u2) (2 ^ (8 - bits))).
        pose proof (Z.mod_le (ord u2) (2 ^ (8 - bits))). lia. }
      eexists. split; [reflexivity|]. split; [exact Ie|].
      unfold ret, print, emit. cbn [rfid trace].
      now rewrite <- app_assoc.
    + eexists. split; [reflexivity|]. split; [exact Ie|].
      unfold ret, print, emit. cbn [rfid trace].
      now rewrite <- app_assoc.
Qed.

Lemma model_unknown_by_six_bits_witness :
  let uid := [xd0; x02; x40; x04; x05; x06; x07; x08] in
  print_model_and_serial (@rev model_entry) uid (World [] [])
  = Done tt (World []
               ([] ++ [Print (Model_unknown (ord x40));
                       Print (Serial_number (skipn 2 uid))])).
Proof.
  apply (proj1 (model_unknown_by_six_bits
                  (@rev model_entry) [xd0; x02; x40; x04; x05; x06; x07; x08]
                  x40 (World [] [])
                  (fun s => Permutation_sym (Permutation_rev s))
                  eq_refl eq_refl)).
  vm_compute. intuition discriminate.
Defined.

(** ** simple_uid_reader.py on a stream of frames *)

(** On a UID of at least three bytes lines 99-117 raise nothing and only
    print. *)
Lemma print_model_and_serial_done
      (iteration : list model_entry -> list model_entry) (uid : bytes) :
  (2 < List.length uid)%nat ->
  forall w,
    print_model_and_serial iteration uid w
    = Done tt (World (rfid w) (trace w ++ model_and_serial iteration uid)).
Proof.
  intros L.
  assert (S : exists shown, forall w,
               print_model_and_serial iteration uid w
               = Done tt (World (rfid w) (trace w ++ shown))).
  { destruct (nth_error uid 1) as [m|] eqn:M;
      [|apply nth_error_None in M; lia].
    destruct (nth_error uid 2) as [u2|] eqn:U;
      [|apply nth_error_None in U; lia].
    unfold print_model_and_serial, bind.
    destruct (lookup MODELS (ord m)) as [entries|] eqn:E.
    - destruct (find (entry_matches (ord u2)) (iteration entries))
        as [[[bits model_id] model_str]|] eqn:F.
      + destruct (bits <? 8) eqn:B.
        * destruct (byte_of_int_some (ord u2 mod 2 ^ (8 - bits)))
            as (c & Hc & _).
          { apply Z.ltb_lt in B. pose proof (ord_range u2) as R.
            assert (0 < 2 ^ (8 - bits)) by (apply Z.pow_pos_nonneg; lia).
            pose proof (Z.mod_pos_bound (ord u2) (2 ^ (8 - bits))).
            pose proof (Z.mod_le (ord u2) (2 ^ (8 - bits))). lia. }
          eexists. intros w. rewrite (item_some _ _ _ _ M), E.
          rewrite (model_loop_find _ _ _ _ U), F. cbv zeta. rewrite B, Hc.
          unfold ret, print, emit. cbn [rfid trace].
          rewrite <- app_assoc. reflexivity.
        * eexists. intros w. rewrite (item_some _ _ _ _ M), E.
          rewrite (model_loop_find _ _ _ _ U), F. cbv zeta. rewrite B.
          unfold ret, print, emit. cbn [rfid trace].
          rewrite <- app_assoc. reflexivity.
      + eexists. intros w. rewrite (item_some _ _ _ _ M), E.
        rewrite (model_loop_find _ _ _ _ U), F.
        rewrite (item_some _ _ _ _ U).
        unfold ret, print, emit. cbn [rfid trace].
        rewrite <- app_assoc. reflexivity.
    - eexists. intros w. rewrite (item_some _ _ _ _ M), E. reflexivity. }
  destruct S as (shown & S). intros w. rewrite S.
  unfold model_and_serial. rewrite S. reflexivity.
Qed.

Lemma reader_turn_frame
      (iteration : list model_entry -> list model_entry)
      (uid_le rest : bytes) (t : list event) :
  eight uid_le ->
  reader_turn iteration (World ("u" :: uid_le ++ rest) t)
  = Done true (World rest (t ++ turn_of iteration uid_le)).
Proof.
  intros E. rewrite (reader_turn_announced _ _ _ _ E).
  unfold bind. rewrite print_model_and_serial_done.
  - unfold ret, turn_of. cbn [rfid trace]. now rewrite <- !app_assoc.
  - rewrite length_rev. unfold eight in E. lia.
Qed.

Lemma reader_loop_frames
      (iteration : list model_entry -> list model_entry)
      (uids : list bytes) (rest : bytes) (fuel : nat) (t : list event) :
  Forall eight uids ->
  reader_loop iteration (List.length uids + fuel)
              (World (announcements uids ++ rest) t)
  = reader_loop iteration fuel
                (World rest (t ++ flat_map (turn_of iteration) uids)).
Proof.
  intros E. revert t.
  induction E as [|uid_le uids E8 E IH]; intros t.
  - simpl. now rewrite app_nil_r.
  - cbn [List.length Nat.add reader_loop announcements flat_map app].
    fold (announcements uids). unfold bind at 1.
    rewrite <- app_assoc, (reader_turn_frame _ _ _ _ E8).
    rewrite IH. cbn [flat_map]. now rewrite <- !app_assoc.
Qed.

(** simple_uid_reader.py takes whole frames one after the other, and what
    it does with a frame depends on that frame alone (the byte it clears
    in one UID does not reach the next).  It ends in one of two ways: by
    [IndexError] on the empty read when the stream ends after a frame, and
    by its [break], after the message, at the first packet whose header is
    not [u]. *)
Theorem reader_takes_frames
        (iteration : list model_entry -> list model_entry)
        (uids : list bytes) :
  Forall eight uids ->
  run (simple_uid_reader iteration) (announcements uids)
  = Raised IndexError
      (World [] (Print Exit_with_control_C
                   :: flat_map (turn_of iteration) uids ++ [Read 9 []]))
  /\ forall c tail,
      c <> "u" ->
      run (simple_uid_reader iteration) (announcements uids ++ c :: tail)
      = Done tt
          (World (skipn 8 tail)
             (Print Exit_with_control_C
                :: flat_map (turn_of iteration) uids
                ++ [Read 9 (c :: firstn 8 tail);
                    Print (Unexpected_packet_header (ord c))])).
Proof.
  intros E.
  assert (F : forall rest,
             exists fuel,
               S (List.length (announcements uids ++ rest))
               = (List.length uids + S fuel)%nat).
  { intros rest. rewrite length_app, (length_announcements _ E).
    exists (8 * List.length uids + List.length rest)%nat. lia. }
  split.
  - destruct (F []) as (fuel & Hf). rewrite app_nil_r in Hf.
    unfold run, simple_uid_reader, bind, print, emit. cbn [rfid trace app].
    rewrite Hf. rewrite <- (app_nil_r (announcements uids)).
    rewrite (reader_loop_frames _ _ _ _ _ E). reflexivity.
  - intros c tail U. destruct (F (c :: tail)) as (fuel & Hf).
    unfold run, simple_uid_reader, bind, print, emit. cbn [rfid trace app].
    rewrite Hf, (reader_loop_frames _ _ _ _ _ E).
    cbn [reader_loop]. unfold bind at 1.
    unfold reader_turn, bind, os_read, item, print, emit, ret.
    cbn [firstn skipn nth_error rfid trace].
    rewrite ord_eqb, (byte_eqb_neq _ _ U). cbn [negb rfid trace].
    now rewrite <- !app_assoc.
Qed.

Lemma reader_takes_frames_witness :
  Forall eight [[x0a; x09; x08; x07; x06; x1b; x02; xd0];
                [x01; x02; x03; x04; x05; x40; x07; xc0]]
  /\ run (simple_uid_reader (fun s => s))
         (announcements [[x0a; x09; x08; x07; x06; x1b; x02; xd0];
                         [x01; x02; x03; x04; x05; x40; x07; xc0]])
     = Raised IndexError
         (World [] (Print Exit_with_control_C
                      :: flat_map (turn_of (fun s => s))
                           [[x0a; x09; x08; x07; x06; x1b; x02; xd0];
                            [x01; x02; x03; x04; x05; x40; x07; xc0]]
                      ++ [Read 9 []])).
Proof.
  assert (E : Forall eight [[x0a; x09; x08; x07; x06; x1b; x02; xd0];
                            [x01; x02; x03; x04; x05; x40; x07; xc0]])
    by (repeat constructor).
  exact (conj E (proj1 (reader_takes_frames (fun s => s) _ E))).
Defined.

(** ** One request at a time *)

Lemma alternates_app (p : bool) (t t' : list event) :
  alternates p (t ++ t')
  = alternates p t && alternates (pending_after p t) t'.
Proof.
  revert p. induction t as [|[f|n got|l] t IH]; intros p; cbn; auto.
  rewrite IH. now rewrite andb_assoc.
Qed.

Lemma pending_after_app (p : bool) (t t' : list event) :
  pending_after p (t ++ t') = pending_after (pending_after p t) t'.
Proof.
  revert p. induction t as [|[f|n got|l] t IH]; intros p; cbn; auto.
Qed.

Lemma paces_ret {A} (a : A) (p : bool) : paces (ret a) p p.
Proof. intros r. split; reflexivity. Qed.

Lemma paces_raise {A} (e : exn) (p q : bool) : paces (@raise A e) p q.
Proof. intros r. split; [reflexivity | exact I]. Qed.

Lemma paces_print (l : line) (p : bool) : paces (print l) p p.
Proof. intros r. split; reflexivity. Qed.

Lemma paces_os_write (frame : bytes) : paces (os_write frame) false true.
Proof. intros r. split; reflexivity. Qed.

Lemma paces_os_read (n : nat) (p : bool) : paces (os_read n) p false.
Proof. intros r. split; reflexivity. Qed.

Lemma paces_item (b : bytes) (i : nat) (p : bool) : paces (item b i) p p.
Proof.
  unfold item. destruct (nth_error b i); [apply paces_ret | apply paces_raise].
Qed.

Lemma paces_setitem (b : bytes) (i : nat) (v : Z) (p : bool) :
  paces (setitem b i v) p p.
Proof.
  unfold setitem. destruct (byte_of_int v); [|apply paces_raise].
  destruct (store b i b0); [apply paces_ret | apply paces_raise].
Qed.

Lemma paces_bind {A B} (m : io A) (k : A -> io B) (p q s : bool) :
  paces m p q ->
  (forall a, uniform (k a)) ->
  (forall a, paces (k a) q s) ->
  paces (bind m k) p s.
Proof.
  intros Hm Uk Hk r. unfold bind. destruct (Hm r) as [Am Pm].
  destruct (m (World r [])) as [a [r1 t1]|e w1|w1]; cbn [final trace] in *;
    [|auto|auto].
  rewrite (Uk a r1 t1). destruct (Hk a r1) as [Ak Pk].
  rewrite final_extend, alternates_app, Am, Pm. split; [exact Ak|].
  destruct (k a (World r1 [])) as [b w2|e w2|w2]; cbn [extend trace];
    [|exact I|exact I].
  cbn [final trace] in *. now rewrite pending_after_app, Pm.
Qed.

Lemma paces_when (c : bool) (m : io unit) (p : bool) :
  paces m p p -> paces (when c m) p p.
Proof. intros H. destruct c; [exact H | apply paces_ret]. Qed.

Lemma paces_for_each {A} (xs : list A) (body : A -> io unit) (p : bool) :
  (forall x, uniform (body x)) ->
  (forall x, paces (body x) p p) ->
  paces (for_each xs body) p p.
Proof.
  intros U H. induction xs as [|x xs IH]; cbn [for_each].
  - apply paces_ret.
  - apply paces_bind with (q := p); auto.
    intros _. now apply uniform_for_each.
Qed.

Lemma paces_while_u (fuel : nat) (packet : bytes) :
  paces (while_u fuel packet) false false.
Proof.
  revert packet. induction fuel as [|fuel IH]; intros packet; cbn [while_u];
    destruct (bytes_eqb packet ["u"]); try apply paces_ret.
  - intros r. split; [reflexivity | exact I].
  - apply paces_bind with (q := false); [apply paces_os_read | |].
    + intros _. uniform. apply uniform_while_u.
    + intros _. apply paces_bind with (q := false); [apply paces_os_read | |].
      * intros. apply uniform_while_u.
      * exact IH.
Qed.

Lemma paces_while_packet_is_u (packet : bytes) :
  paces (while_packet_is_u packet) false false.
Proof. intros r. unfold while_packet_is_u. apply paces_while_u. Qed.

Ltac paces :=
  repeat first
    [ apply paces_print | apply paces_os_write | apply paces_os_read
    | apply paces_ret | apply paces_raise
    | match goal with
      | |- paces (bind _ _) _ _ =>
          eapply paces_bind; [ | intros ?; uniform | intros ? ]
      | |- paces (item _ _) _ _ => apply paces_item
      | |- paces (while_packet_is_u _) _ _ => apply paces_while_packet_is_u
      | |- paces (when _ _) _ _ => apply paces_when
      | |- paces (for_each _ _) _ _ =>
          apply paces_for_each; [intros ?; uniform | intros ?]
      | |- paces (if ?c then _ else _) _ _ => destruct c
      | |- paces (match ?x with _ => _ end) _ _ => destruct x
      end ].

Lemma paces_poll_uid (body : bytes -> bytes -> io unit) :
  (forall uid_le uid, uniform (body uid_le uid)) ->
  (forall uid_le uid, paces (body uid_le uid) false false) ->
  paces (poll_uid body) false false.
Proof. intros U H. unfold poll_uid. paces. apply H. Qed.

Lemma paces_model_loop (entries : list model_entry) (uid : bytes) (p : bool) :
  paces (model_loop entries uid) p p.
Proof.
  induction entries as [|[[bits model_id] model_str] entries IH];
    cbn [model_loop]; [apply paces_ret|].
  apply paces_bind with (q := p); [apply paces_item | |].
  - intros model. destruct (_ =? model_id); [uniform|].
    apply uniform_model_loop.
  - intros model. destruct (_ =? model_id); [|exact IH].
    apply paces_bind with (q := p); [apply paces_print | intros ?; uniform |].
    intros _. destruct (bits <? 8); [|apply paces_ret].
    apply paces_bind with (q := p); [apply paces_item | intros ?; uniform |].
    intros u2.
    apply paces_bind with (q := p); [apply paces_setitem | intros ?; uniform |].
    intros uid'. apply paces_ret.
Qed.

Lemma paces_print_model_and_serial
      (iteration : list model_entry -> list model_entry) (uid : bytes)
      (p : bool) :
  paces (print_model_and_serial iteration uid) p p.
Proof.
  unfold print_model_and_serial.
  apply paces_bind with (q := p); [apply paces_item | intros ?; uniform |].
  intros m. apply paces_bind with (q := p).
  - destruct (lookup MODELS m); [|apply paces_ret].
    apply paces_bind with (q := p); [apply paces_model_loop | |].
    + intros [[uid' serial_start] model_unknown]. uniform.
    + intros [[uid' serial_start] model_unknown].
      apply paces_bind with (q := p); [|intros ?; uniform|intros; apply paces_ret].
      destruct model_unknown; [|apply paces_ret].
      apply paces_bind with (q := p);
        [apply paces_item | intros ?; uniform | intros; apply paces_print].
  - intros [uid' serial_start]. apply uniform_print.
  - intros [uid' serial_start]. apply paces_print.
Qed.

Lemma paces_reader_turn (iteration : list model_entry -> list model_entry)
      (p : bool) :
  paces (reader_turn iteration) p false.
Proof.
  unfold reader_turn.
  eapply paces_bind; [apply paces_os_read | intros ?; uniform |].
  intros packet. paces. apply paces_print_model_and_serial.
Qed.

Lemma paces_reader_loop (iteration : list model_entry -> list model_entry)
      (fuel : nat) :
  paces (reader_loop iteration fuel) false false.
Proof.
  induction fuel as [|fuel IH]; cbn [reader_loop].
  - intros r. split; [reflexivity | exact I].
  - apply paces_bind with (q := false); [apply paces_reader_turn | |].
    + intros [|]; [apply uniform_reader_loop | apply uniform_ret].
    + intros [|]; [exact IH | apply paces_ret].
Qed.

Lemma paces_one (script : io unit) :
  paces script false false -> one_request_at_a_time script.
Proof. intros H stream. apply (H stream). Qed.

(** No script has two requests under way: after each [os.write] it reads
    from the device before it writes again, whatever the device delivers
    (simple_uid_reader.py writes nothing at all). *)
Theorem requests_one_at_a_time :
  one_request_at_a_time dump_512_bytes
  /\ one_request_at_a_time dump_counter
  /\ one_request_at_a_time erase_blocks
  /\ one_request_at_a_time read_system_block
  /\ one_request_at_a_time write_block
  /\ one_request_at_a_time write_blocks
  /\ forall iteration, one_request_at_a_time (simple_uid_reader iteration).
Proof.
  repeat apply conj.
  - apply paces_one, paces_poll_uid; intros;
      unfold dump_512_bytes_read; [uniform | paces].
  - apply paces_one, paces_poll_uid; intros;
      unfold dump_counter_read; [uniform | paces].
  - apply paces_one, paces_poll_uid; intros;
      unfold erase_blocks_write; [uniform | paces].
  - apply paces_one, paces_poll_uid; intros;
      unfold read_system_block_single, read_system_block_multiple;
      [uniform | paces].
  - apply paces_one, paces_poll_uid; intros;
      unfold write_block_cycle, write_block_write; [uniform | paces].
  - apply paces_one, paces_poll_uid; intros;
      unfold write_blocks_cycle, write_blocks_write; [uniform | paces].
  - intros iteration. apply paces_one. unfold simple_uid_reader.
    apply paces_bind with (q := false); [apply paces_print | |].
    + intros _ r t. apply uniform_reader_loop.
    + intros _ r. apply paces_reader_loop.
Qed.

(** ** A poll reply that is cut short *)

Lemma poll_uid_short (body : bytes -> bytes -> io unit)
      (uid_short : bytes) (t : list event) :
  uid_short <> [] ->
  (List.length uid_short <= 8)%nat ->
  poll_uid body (World ("u" :: uid_short) t)
  = body uid_short (rev uid_short)
         (World [] (t ++ [Print Waiting_for_a_chip; Write ["p"];
                          Read 9 ("u" :: uid_short);
                          Print (UID (rev uid_short))]
                      ++ first_byte_warning (rev uid_short))).
Proof.
  intros N L. unfold poll_uid.
  unfold bind at 1. unfold print at 1, emit at 1. cbn [rfid trace].
  unfold bind at 1. unfold os_write at 1, emit at 1. cbn [rfid trace].
  unfold bind at 1. unfold os_read at 1. cbn [rfid trace].
  rewrite (firstn_all2 (n := 9) ("u" :: uid_short)) by (simpl; lia).
  rewrite (skipn_all2 (n := 9) ("u" :: uid_short)) by (simpl; lia).
  unfold bind at 1. unfold item at 1. cbn [nth_error]. unfold ret at 1.
  change (ord "u" =? ord "u") with true. cbn [negb tl].
  unfold bind at 1. unfold print at 1, emit at 1. cbn [rfid trace].
  destruct (rev uid_short) as [|c uid] eqn:R.
  { exfalso. apply N. apply (f_equal (@rev byte)) in R.
    now rewrite rev_involutive in R. }
  unfold bind at 1. unfold item at 1. cbn [nth_error]. unfold ret at 1.
  unfold bind at 1. unfold first_byte_warning, when, print, emit, ret.
  destruct (ord c =? 208); cbn [negb rfid trace];
    rewrite <- !app_assoc; reflexivity.
Qed.

(** A frame that starts with [tag], goes on with fewer than eight UID bytes
    and ends with [suffix] has not the shape of a request, for the suffixes
    the scripts send. *)
Ltac misshapen :=
  intros W; apply well_formed_shape in W; revert W;
  match goal with
  | N : ?uid <> [], L : (List.length ?uid < 8)%nat |- _ =>
      clear - N L;
      do 8 (destruct uid as [|? uid]; [try congruence; try discriminate|]);
      simpl in L; lia
  end.

(** When the poll reply is cut short after one to seven bytes of UID, the
    scripts go on with the truncated UID: they send their request with it,
    a frame that is no request of the protocol, and end by [IndexError] at
    the empty read that follows. *)
Theorem short_poll_reply (uid_short : bytes) (t : list event) :
  uid_short <> [] ->
  (List.length uid_short < 8)%nat ->
  let sent frame :=
    Raised IndexError
      (World [] (t ++ [Print Waiting_for_a_chip; Write ["p"];
                       Read 9 ("u" :: uid_short);
                       Print (UID (rev uid_short))]
                   ++ first_byte_warning (rev uid_short)
                   ++ [Write frame; Read 1 []])) in
  let f512 := ["R"] ++ uid_short
              ++ [x10; x00; x01; x02; x03; x04; x05; x06; x07; x08; x09;
                  x0a; x0b; x0c; x0d; x0e; x0f] in
  let fcounter := ["R"] ++ uid_short ++ [x02; x05; x06] in
  let ferase := ["W"] ++ uid_short ++ [x03; x07; x08; x09] ++ erased_data in
  let fblock := ["r"] ++ uid_short ++ [x07] in
  let fblocks := ["R"] ++ uid_short ++ [x03; x07; x08; x09] in
  (dump_512_bytes (World ("u" :: uid_short) t) = sent f512
   /\ ~ well_formed f512)
  /\ (dump_counter (World ("u" :: uid_short) t) = sent fcounter
      /\ ~ well_formed fcounter)
  /\ (erase_blocks (World ("u" :: uid_short) t) = sent ferase
      /\ ~ well_formed ferase)
  /\ (write_block (World ("u" :: uid_short) t) = sent fblock
      /\ ~ well_formed fblock)
  /\ (write_blocks (World ("u" :: uid_short) t) = sent fblocks
      /\ ~ well_formed fblocks).
Proof.
  intros N L sent f512 fcounter ferase fblock fblocks.
  subst sent f512 fcounter ferase fblock fblocks.
  assert (L8 : (List.length uid_short <= 8)%nat) by lia.
  assert (R : firstn 1 (@nil byte) <> ["u"]) by discriminate.
  assert (E : Forall eight []) by constructor.
  repeat apply conj.
  1,3,5,7,9:
    (match goal with
     | |- ?script _ = _ => unfold script
     end;
     rewrite (poll_uid_short _ _ _ N L8);
     drain E R; cbn [firstn skipn bytes_eqb];
     unfold bind, item, raise; cbn [nth_error skipped flat_map app];
     rewrite <- !app_assoc; reflexivity).
  all: misshapen.
Qed.

Lemma short_poll_reply_witness :
  [x01; xd0] <> []
  /\ (List.length [x01; xd0] < 8)%nat
  /\ dump_counter (World ["u"; x01; xd0] [])
     = Raised IndexError
         (World [] ([] ++ [Print Waiting_for_a_chip; Write ["p"];
                           Read 9 ["u"; x01; xd0];
                           Print (UID (rev [x01; xd0]))]
                       ++ first_byte_warning (rev [x01; xd0])
                       ++ [Write (["R"] ++ [x01; xd0] ++ [x02; x05; x06]);
                           Read 1 []]))
  /\ ~ well_formed (["R"] ++ [x01; xd0] ++ [x02; x05; x06]).
Proof.
  assert (N : [x01; xd0] <> []) by discriminate.
  assert (L : (List.length [x01; xd0] < 8)%nat) by (simpl; lia).
  split; [exact N|]. split; [exact L|].
  exact (proj1 (proj2 (short_poll_reply [x01; xd0] [] N L))).
Defined.

(** ** write_blocks.py: the rotation *)

(** With a reply of three whole blocks and an echo of three whole blocks,
    write_blocks.py sends one write for blocks 7, 8 and 9 that carries what
    it read from blocks 8, 9 and 7, in this order, compares the echoed
    blocks with these one by one, and prints the echoed blocks as the new
    blocks 7, 8 and 9.  Nothing after the echo is read. *)
Theorem write_blocks_rotates
        (uids : list bytes)
        (uid_le block7 block8 block9 echo7 echo8 echo9 tail : bytes)
        (t : list event) :
  Forall eight uids ->
  block block7 -> block block8 -> block block9 ->
  block echo7 -> block echo8 -> block echo9 ->
  write_blocks_cycle uid_le
    (World (announcements uids
              ++ "R" :: x03 :: block7 ++ block8 ++ block9
              ++ "W" :: x03 :: echo7 ++ echo8 ++ echo9 ++ tail) t)
  = Done tt
      (World tail
         (t ++ [Write (["R"] ++ uid_le ++ [x03; x07; x08; x09])]
            ++ skipped uids
            ++ [Read 1 ["R"]; Read 1 [x03];
                Read 4 block7; Read 4 block8; Read 4 block9;
                Write (["W"] ++ uid_le ++ [x03; x07; x08; x09]
                        ++ block8 ++ block9 ++ block7);
                Read 1 ["W"]; Read 1 [x03];
                Read 4 echo7; Read 4 echo8; Read 4 echo9]
            ++ mismatch echo7 block8 (Data_mismatch echo7 block8)
            ++ mismatch echo8 block9 (Data_mismatch echo7 block8)
            ++ mismatch echo9 block7 (Data_mismatch echo7 block8)
            ++ [Print (New_block 7 echo7); Print (New_block 8 echo8);
                Print (New_block 9 echo9)])).
Proof.
  intros E B7 B8 B9 E7 E8 E9.
  drain E (first_not_u "R"
             (x03 :: block7 ++ block8 ++ block9
                  ++ "W" :: x03 :: echo7 ++ echo8 ++ echo9 ++ tail)
             ltac:(discriminate)).
  cbn [firstn skipn bytes_eqb]. change (Byte.eqb "R" "R") with true.
  cbn [andb]. unfold bind at 1. unfold os_read at 1.
  cbn [firstn skipn rfid trace].
  unfold bind at 1. unfold item at 1. cbn [nth_error]. unfold ret at 1.
  change (negb (ord x03 =? 3)) with false. cbv iota.
  unfold bind at 1. unfold os_read at 1. cbn [rfid trace].
  destruct (firstn_skipn_app 4 block7 (block8 ++ block9 ++ "W" :: x03 :: echo7 ++ echo8 ++ echo9 ++ tail) B7)
    as [-> ->].
  unfold bind at 1. unfold os_read at 1. cbn [rfid trace].
  destruct (firstn_skipn_app 4 block8 (block9 ++ "W" :: x03 :: echo7 ++ echo8 ++ echo9 ++ tail) B8)
    as [-> ->].
  unfold bind at 1. unfold os_read at 1. cbn [rfid trace].
  destruct (firstn_skipn_app 4 block9 ("W" :: x03 :: echo7 ++ echo8 ++ echo9 ++ tail) B9)
    as [-> ->].
  unfold write_blocks_write. unfold bind at 1.
  unfold os_write at 1, emit at 1. cbn [rfid trace].
  unfold bind at 1. unfold os_read at 1. cbn [firstn skipn rfid trace].
  cbn [bytes_eqb]. change (Byte.eqb "W" "W") with true. cbn [andb].
  unfold bind at 1. unfold os_read at 1. cbn [firstn skipn rfid trace].
  unfold bind at 1. unfold item at 1. cbn [nth_error]. unfold ret at 1.
  change (negb (ord x03 =? 3)) with false. cbv iota.
  unfold bind at 1. unfold os_read at 1. cbn [rfid trace].
  destruct (firstn_skipn_app 4 echo7 (echo8 ++ echo9 ++ tail) E7) as [-> ->].
  unfold bind at 1. unfold os_read at 1. cbn [rfid trace].
  destruct (firstn_skipn_app 4 echo8 (echo9 ++ tail) E8) as [-> ->].
  unfold bind at 1. unfold os_read at 1. cbn [rfid trace].
  destruct (firstn_skipn_app 4 echo9 tail E9) as [-> ->].
  unfold mismatch, bind, when, print, emit, ret.
  destruct (bytes_eqb echo7 block8), (bytes_eqb echo8 block9),
    (bytes_eqb echo9 block7); cbn [negb rfid trace];
    rewrite <- !app_assoc; reflexivity.
Qed.

Lemma write_blocks_rotates_witness :
  Forall eight [[x0a; x09; x08; x07; x06; x05; x02; xd0]]
  /\ block [x07; x00; x00; x00]
  /\ exists t,
      write_blocks_cycle [x0a; x09; x08; x07; x06; x05; x02; xd0]
        (World (announcements [[x0a; x09; x08; x07; x06; x05; x02; xd0]]
                  ++ "R" :: x03 :: [x07; x00; x00; x00]
                  ++ [x08; x00; x00; x00] ++ [x09; x00; x00; x00]
                  ++ "W" :: x03 :: [x08; x00; x00; x00]
                  ++ [x09; x00; x00; x00] ++ [x07; x00; x00; x00] ++ []) [])
      = Done tt (World [] t).
Proof.
  assert (E : Forall eight [[x0a; x09; x08; x07; x06; x05; x02; xd0]])
    by (repeat constructor).
  split; [exact E|]. split; [reflexivity|].
  eexists.
  exact (write_blocks_rotates
           [[x0a; x09; x08; x07; x06; x05; x02; xd0]]
           [x0a; x09; x08; x07; x06; x05; x02; xd0]
           [x07; x00; x00; x00] [x08; x00; x00; x00] [x09; x00; x00; x00]
           [x08; x00; x00; x00] [x09; x00; x00; x00] [x07; x00; x00; x00]
           [] [] E eq_refl eq_refl eq_refl eq_refl eq_refl eq_refl).
Defined.

(** ** dump_counter.py: two blocks, whatever the count *)

(** After a reply header [R] and any count byte, dump_counter.py reads two
    blocks and prints them as blocks 5 and 6, each with its value as a
    little-endian integer and its bytes as they came; a count other than 2
    adds the warning and changes nothing else. *)
Theorem dump_counter_reads_two
        (c : byte) (uids : list bytes) (uid_le block5 block6 tail : bytes)
        (t : list event) :
  Forall eight uids ->
  block block5 ->
  block block6 ->
  dump_counter_read uid_le
    (World (announcements uids ++ "R" :: c :: block5 ++ block6 ++ tail) t)
  = Done tt
      (World tail
         (t ++ [Write (["R"] ++ uid_le ++ [x02; x05; x06])]
            ++ skipped uids ++ [Read 1 ["R"]; Read 1 [c]]
            ++ count_warning c 2
            ++ [Read 4 block5;
                Print (Block_counter 5 (from_bytes_little block5) block5);
                Read 4 block6;
                Print (Block_counter 6 (from_bytes_little block6) block6)])).
Proof.
  intros E B5 B6.
  drain E (first_not_u "R" (c :: block5 ++ block6 ++ tail)
                       ltac:(discriminate)).
  cbn [firstn skipn bytes_eqb]. change (Byte.eqb "R" "R") with true.
  cbn [andb]. unfold bind at 1. unfold os_read at 1.
  cbn [firstn skipn rfid trace].
  unfold bind at 1. unfold item at 1. cbn [nth_error]. unfold ret at 1.
  change (range 5 7) with [5; 6]. cbn [for_each].
  unfold count_warning, bind, when, os_read, print, emit, ret.
  destruct (ord c =? 2); cbn [negb rfid trace];
    destruct (firstn_skipn_app 4 block5 (block6 ++ tail) B5) as [-> ->];
    destruct (firstn_skipn_app 4 block6 tail B6) as [-> ->];
    rewrite <- !app_assoc; reflexivity.
Qed.

Lemma dump_counter_reads_two_witness :
  Forall eight [[x0a; x09; x08; x07; x06; x05; x02; xd0]]
  /\ block [x01; x00; x00; x00]
  /\ exists t,
      dump_counter_read [x0a; x09; x08; x07; x06; x05; x02; xd0]
        (World (announcements [[x0a; x09; x08; x07; x06; x05; x02; xd0]]
                  ++ "R" :: x02 :: [x01; x00; x00; x00]
                  ++ [x02; x00; x00; x00] ++ []) [])
      = Done tt (World [] t).
Proof.
  assert (E : Forall eight [[x0a; x09; x08; x07; x06; x05; x02; xd0]])
    by (repeat constructor).
  split; [exact E|]. split; [reflexivity|].
  eexists.
  exact (dump_counter_reads_two
           x02 [[x0a; x09; x08; x07; x06; x05; x02; xd0]]
           [x0a; x09; x08; x07; x06; x05; x02; xd0]
           [x01; x00; x00; x00] [x02; x00; x00; x00] [] [] E eq_refl eq_refl).
Defined.
